(** * WeatherApp: forecast aggregation, city search and autocomplete

    A shallow embedding of the three pieces of logic of the weather
    widget:

    - [Forecast]         src/components/Forecast.tsx   (daily buckets)
    - [WeatherApi]       src/services/weatherApi.ts    (searchCities)
    - [CityAutocomplete] src/components/CityAutocomplete.tsx

    The JavaScript run-time the code leans on (Date, String, Array and
    Math methods) is modelled first, in [JS]. *)

From Stdlib Require Import ZArith QArith Qminmax List String Ascii Bool Lia.
From Stdlib Require Import Sorting.Sorted Sorting.Permutation.
From Stdlib Require Import Structures.OrdersEx.
From Stdlib Require Import QArith.Qround.
Import ListNotations.

Local Open Scope string_scope.
Local Open Scope Z_scope.

(* ===================================================================== *)
(** * The JavaScript run-time used by the sources *)
(* ===================================================================== *)

Module JS.

(** ** Strings

    A string is a sequence of code units; [length] is JS [.length]. *)

(** [s.split(sep)] for a one-character separator. *)
Fixpoint split_go (sep : ascii) (cur : string) (s : string) : list string :=
  match s with
  | EmptyString => [cur]
  | String c rest =>
      if Ascii.eqb c sep then cur :: split_go sep EmptyString rest
      else split_go sep (cur ++ String c EmptyString) rest
  end.

Definition split (sep : ascii) (s : string) : list string :=
  split_go sep EmptyString s.

(** White space removed by [String.prototype.trim], among the code units
    below 256: TAB, LF, VT, FF, CR, SPACE and NBSP. *)
Definition isWhiteSpace (c : ascii) : bool :=
  let n := nat_of_ascii c in
  ((9 <=? n) && (n <=? 13) || (n =? 32) || (n =? 160))%nat.

Fixpoint trimStart (s : string) : string :=
  match s with
  | EmptyString => EmptyString
  | String c rest => if isWhiteSpace c then trimStart rest else s
  end.

(** [trimEnd] keeps a character when it is not white space or when
    something is left after it. *)
Fixpoint trimEnd (s : string) : string :=
  match s with
  | EmptyString => EmptyString
  | String c rest =>
      match trimEnd rest with
      | EmptyString => if isWhiteSpace c then EmptyString else String c EmptyString
      | r => String c r
      end
  end.

Definition trim (s : string) : string := trimEnd (trimStart s).

(** [a.localeCompare(b)].  The keys compared by the program are ISO
    dates; for the years 0000 to 9999 they are digits with hyphens at
    fixed places, on which every collation is the code-unit order used
    here. *)
Definition localeCompare (a b : string) : comparison :=
  String_as_OT.compare a b.

(** ** Decimal digits *)

Definition digit (n : Z) : ascii := ascii_of_nat (48 + Z.to_nat (n mod 10)).

(** The [w] low decimal digits of [n], most significant first. *)
Fixpoint pad (w : nat) (n : Z) : string :=
  match w with
  | O => EmptyString
  | S w' => pad w' (n / 10) ++ String (digit n) EmptyString
  end.

(** Decimal digits of [n >= 0] without leading zeros. *)
Fixpoint digits_fuel (fuel : nat) (n : Z) : string :=
  match fuel with
  | O => EmptyString
  | S f =>
      if n <? 10 then String (digit n) EmptyString
      else digits_fuel f (n / 10) ++ String (digit n) EmptyString
  end.

Definition numeral (n : Z) : string := digits_fuel (S (Z.to_nat (Z.log2 n))) n.

Definition digitValue (c : ascii) : option Z :=
  let n := Z.of_nat (nat_of_ascii c) in
  if (48 <=? n) && (n <=? 57) then Some (n - 48) else None.

Fixpoint parseDigits (acc : Z) (s : string) : option Z :=
  match s with
  | EmptyString => Some acc
  | String c rest =>
      match digitValue c with
      | Some d => parseDigits (10 * acc + d) rest
      | None => None
      end
  end.

(** ** Dates

    A time value is a number of milliseconds since 1970-01-01T00:00Z, as
    in [Date.prototype.getTime]; the program only builds them from whole
    epoch seconds inside the range of [Date].  The local time zone is a
    fixed offset from UTC. *)

Definition msPerSecond : Z := 1000.
Definition msPerMinute : Z := 60000.
Definition msPerHour : Z := 3600000.
Definition msPerDay : Z := 86400000.

Definition Day (t : Z) : Z := t / msPerDay.
Definition TimeWithinDay (t : Z) : Z := t mod msPerDay.

(** Proleptic Gregorian calendar: day number -> (year, month 1..12, day). *)
Definition civilFromDays (days : Z) : Z * Z * Z :=
  let z := days + 719468 in
  let era := z / 146097 in
  let doe := z - era * 146097 in
  let yoe := (doe - doe / 1460 + doe / 36524 - doe / 146096) / 365 in
  let doy := doe - (365 * yoe + yoe / 4 - yoe / 100) in
  let mp := (5 * doy + 2) / 153 in
  let d := doy - (153 * mp + 2) / 5 + 1 in
  let m := if mp <? 10 then mp + 3 else mp - 9 in
  let y := yoe + era * 400 + (if m <=? 2 then 1 else 0) in
  (y, m, d).

(** [MakeDay]: (year, month 1..12, day of month) -> day number; the day
    of month may run past the end of the month. *)
Definition daysFromCivil (y m d : Z) : Z :=
  let y' := y - (if m <=? 2 then 1 else 0) in
  let era := y' / 400 in
  let yoe := y' - era * 400 in
  let doy := (153 * (if 2 <? m then m - 3 else m + 9) + 2) / 5 + d - 1 in
  let doe := yoe * 365 + yoe / 4 - yoe / 100 + doy in
  era * 146097 + doe - 719468.

(** 0 = Sunday; 1970-01-01 was a Thursday. *)
Definition WeekDay (t : Z) : Z := (Day t + 4) mod 7.

Definition isoYear (y : Z) : string :=
  if (0 <=? y) && (y <=? 9999) then pad 4 y
  else (if y <? 0 then "-" else "+") ++ pad 6 (Z.abs y).

(** [new Date(t).toISOString()], for a time value [t] that [Date]
    holds (at most 8.64e15 in absolute value), on which it does not
    throw. *)
Definition toISOString (t : Z) : string :=
  let '(y, m, d) := civilFromDays (Day t) in
  let r := TimeWithinDay t in
  isoYear y ++ "-" ++ pad 2 m ++ "-" ++ pad 2 d ++ "T"
    ++ pad 2 (r / msPerHour) ++ ":" ++ pad 2 (r / msPerMinute mod 60) ++ ":"
    ++ pad 2 (r / msPerSecond mod 60) ++ "." ++ pad 3 (r mod 1000) ++ "Z".

(** [new Date(s)] for the date-only forms [YYYY-MM-DD] and
    [+YYYYYY-MM-DD] / [-YYYYYY-MM-DD], read as UTC midnight; [None] is
    the invalid date. *)
Definition makeDate (y m d : option Z) : option Z :=
  match y, m, d with
  | Some y, Some m, Some d =>
      if (1 <=? m) && (m <=? 12) && (1 <=? d) && (d <=? 31)
      then Some (daysFromCivil y m d * msPerDay) else None
  | _, _, _ => None
  end.

Definition parseMonthDay (y : option Z) (m d : string) : option Z :=
  if ((length m =? 2) && (length d =? 2))%nat
  then makeDate y (parseDigits 0 m) (parseDigits 0 d)
  else None.

Definition parseDate (s : string) : option Z :=
  match split "-" s with
  | [String "+" y; m; d] =>
      if (length y =? 6)%nat then parseMonthDay (parseDigits 0 y) m d else None
  | [y; m; d] =>
      if (length y =? 4)%nat then parseMonthDay (parseDigits 0 y) m d else None
  | [EmptyString; y; m; d] =>
      (* a leading minus sign leaves an empty first piece *)
      match (length y =? 6)%nat, parseDigits 0 y with
      | true, Some y' => if y' =? 0 then None else parseMonthDay (Some (- y')) m d
      | _, _ => None
      end
  | _ => None
  end.

(** Local time: [tz] is the zone's offset from UTC in minutes, positive
    east of Greenwich (the negation of [getTimezoneOffset()]). *)
Definition LocalTime (tz t : Z) : Z := t + tz * msPerMinute.
Definition UTC (tz t : Z) : Z := t - tz * msPerMinute.

(** [d.getHours()]. *)
Definition getHours (tz t : Z) : Z := TimeWithinDay (LocalTime tz t) / msPerHour.

(** [d.getDate()], the local day of the month. *)
Definition getDate (tz t : Z) : Z :=
  let '(_, _, d) := civilFromDays (Day (LocalTime tz t)) in d.

(** [d.setHours(0, 0, 0, 0)]: local midnight of the local day of [t]. *)
Definition setHours0 (tz t : Z) : Z :=
  UTC tz (Day (LocalTime tz t) * msPerDay).

(** [d.setDate(n)]: same local year, month and time of day, day of the
    month [n] (which may overflow into the next month). *)
Definition setDate (tz t n : Z) : Z :=
  let lt := LocalTime tz t in
  let '(y, m, _) := civilFromDays (Day lt) in
  UTC tz (daysFromCivil y m n * msPerDay + TimeWithinDay lt).

Definition weekdayShort (w : Z) : string :=
  nth (Z.to_nat w) ["Sun"; "Mon"; "Tue"; "Wed"; "Thu"; "Fri"; "Sat"] "".

Definition monthShort (m : Z) : string :=
  nth (Z.to_nat (m - 1))
    ["Jan"; "Feb"; "Mar"; "Apr"; "May"; "Jun";
     "Jul"; "Aug"; "Sep"; "Oct"; "Nov"; "Dec"] "".

(** [d.toLocaleDateString('en-US', { weekday: 'short', month: 'short',
    day: 'numeric' })], for example [Mon, Jan 15]. *)
Definition toLocaleDateString_wmd (tz t : Z) : string :=
  let lt := LocalTime tz t in
  let '(_, m, d) := civilFromDays (Day lt) in
  weekdayShort (WeekDay lt) ++ ", " ++ monthShort m ++ " " ++ numeral d.

(** [d.toLocaleDateString('en-US', { weekday: 'short' })]. *)
Definition toLocaleDateString_w (tz t : Z) : string :=
  weekdayShort (WeekDay (LocalTime tz t)).

(** [d.toDateString()], for example [Mon Jan 15 2024]. *)
Definition toDateString (tz t : Z) : string :=
  let lt := LocalTime tz t in
  let '(y, m, d) := civilFromDays (Day lt) in
  weekdayShort (WeekDay lt) ++ " " ++ monthShort m ++ " " ++ pad 2 d ++ " "
    ++ (if y <? 0 then "-" ++ pad 6 (- y) else if y <=? 9999 then pad 4 y else numeral y).

(** ** Numbers

    A finite number is read as the rational it denotes.  The numbers of
    a JSON document are never NaN, so the fields read from one are typed
    [Q]; [Math.min()] and [Math.max()] of no argument are the
    infinities, and [parseFloat] may answer NaN. *)
Inductive number : Type :=
  | NaN
  | NegInfinity
  | Finite (q : Q)
  | PosInfinity.

Definition Math_min (xs : list Q) : number :=
  match xs with
  | [] => PosInfinity
  | x :: rest => Finite (fold_left Qmin rest x)
  end.

Definition Math_max (xs : list Q) : number :=
  match xs with
  | [] => NegInfinity
  | x :: rest => Finite (fold_left Qmax rest x)
  end.

(** [a <= b] on numbers. *)
Definition number_le (a b : number) : Prop :=
  match a, b with
  | NaN, _ | _, NaN => False
  | NegInfinity, _ => True
  | _, PosInfinity => True
  | Finite p, Finite q => (p <= q)%Q
  | _, _ => False
  end.

(** ** Objects used as dictionaries

    Own string-keyed properties in insertion order, which is the order
    [Object.entries] lists them in (no key of the program is an array
    index). *)
Section Objects.
Context {V : Type}.

Definition object : Type := list (string * V).

Fixpoint get (o : object) (k : string) : option V :=
  match o with
  | [] => None
  | (k', v) :: rest => if String.eqb k' k then Some v else get rest k
  end.

(** [o[k] = v]: overwrite in place, or add as the last property. *)
Fixpoint set (o : object) (k : string) (v : V) : object :=
  match o with
  | [] => [(k, v)]
  | (k', v') :: rest =>
      if String.eqb k' k then (k', v) :: rest else (k', v') :: set rest k v
  end.

(** In-place change of the value stored under [k]. *)
Fixpoint modify (o : object) (k : string) (f : V -> V) : object :=
  match o with
  | [] => []
  | (k', v') :: rest =>
      if String.eqb k' k then (k', f v') :: rest else (k', v') :: modify rest k f
  end.

Definition entries (o : object) : list (string * V) := o.
End Objects.
Arguments object V : clear implicits.

(** ** Arrays *)
Section Arrays.
Context {A : Type}.

(** [xs.sort(cmp)]: a stable sort; an element goes in front of the
    first one it does not compare greater than. *)
Fixpoint insert (cmp : A -> A -> comparison) (x : A) (xs : list A) : list A :=
  match xs with
  | [] => [x]
  | y :: rest =>
      match cmp x y with
      | Gt => y :: insert cmp x rest
      | _ => x :: xs
      end
  end.

Definition sort (cmp : A -> A -> comparison) (xs : list A) : list A :=
  fold_right (insert cmp) [] xs.

(** [xs.slice(0, end)] for an integer [end]; a negative [end] counts
    from the end of the array. *)
Definition slice0 (xs : list A) (e : Z) : list A :=
  let len := Z.of_nat (List.length xs) in
  let final := if e <? 0 then Z.max (len + e) 0 else Z.min e len in
  firstn (Z.to_nat final) xs.
End Arrays.

(** ** Values and exceptions

    What [JSON.parse] can build, and [undefined], which reading a
    missing property yields. *)
#[warnings="-register-all"]
Inductive any : Type :=
  | Undefined
  | Null
  | Bool (b : bool)
  | Number (q : Q)
  | Str (s : string)
  | Array (xs : list any)
  | Object (o : list (string * any)).

Inductive error : Type :=
  | TypeError
  | SyntaxError
  | NetworkError.

Inductive result (A : Type) : Type :=
  | Ok (a : A)
  | Throw (e : error).
Arguments Ok {A} a.
Arguments Throw {A} e.

Definition andThen {A B : Type} (r : result A) (f : A -> result B) : result B :=
  match r with
  | Ok a => f a
  | Throw e => Throw e
  end.

(** [ToBoolean]. *)
Definition truthy (v : any) : bool :=
  match v with
  | Undefined | Null => false
  | Bool b => b
  | Number q => negb (Qeq_bool q 0)
  | Str s => negb (String.eqb s "")
  | Array _ | Object _ => true
  end.

(** [a || b] where [b] is only evaluated when needed. *)
Definition orElse (a : any) (b : result any) : result any :=
  if truthy a then Ok a else b.

(** [v.k] for a property name [k] that no prototype defines: a
    [TypeError] on [null] and [undefined], the own property of an
    object, [undefined] on everything else. *)
Definition prop (v : any) (k : string) : result any :=
  match v with
  | Undefined | Null => Throw TypeError
  | Object o =>
      match get o k with
      | Some x => Ok x
      | None => Ok Undefined
      end
  | _ => Ok Undefined
  end.

(** [v?.k]. *)
Definition optProp (v : any) (k : string) : result any :=
  match v with
  | Undefined | Null => Ok Undefined
  | _ => prop v k
  end.

(** [v === s] for a string literal [s]. *)
Definition isStr (v : any) (s : string) : bool :=
  match v with
  | Str s' => String.eqb s' s
  | _ => false
  end.

Definition isArray (v : any) : bool :=
  match v with
  | Array _ => true
  | _ => false
  end.

(** [xs.filter(p)] and [xs.map(f)] when the callback may throw. *)
Fixpoint filterE {A : Type} (p : A -> result bool) (xs : list A) : result (list A) :=
  match xs with
  | [] => Ok []
  | x :: rest =>
      andThen (p x) (fun keep =>
      andThen (filterE p rest) (fun rest' =>
      Ok (if keep then x :: rest' else rest')))
  end.

Fixpoint mapE {A B : Type} (f : A -> result B) (xs : list A) : result (list B) :=
  match xs with
  | [] => Ok []
  | x :: rest =>
      andThen (f x) (fun y =>
      andThen (mapE f rest) (fun rest' =>
      Ok (y :: rest')))
  end.

(** [encodeURIComponent] on strings of code units below 256.  Such a
    string holds no surrogate, so the function does not throw on it;
    strings with code units from 256 on, and with them the [URIError]
    on a lone surrogate, are outside [string]. *)
Definition hexDigit (n : Z) : ascii :=
  if n <? 10 then ascii_of_nat (48 + Z.to_nat n) else ascii_of_nat (55 + Z.to_nat n).

Definition percent (byte : Z) : string :=
  String "%" (String (hexDigit (byte / 16)) (String (hexDigit (byte mod 16)) EmptyString)).

Definition isUnreserved (c : ascii) : bool :=
  let n := Z.of_nat (nat_of_ascii c) in
  ((48 <=? n) && (n <=? 57)) || ((65 <=? n) && (n <=? 90)) || ((97 <=? n) && (n <=? 122))
  || existsb (Ascii.eqb c) ["-"; "_"; "."; "!"; "~"; "*"; "'"; "("; ")"]%char.

Fixpoint encodeURIComponent (s : string) : string :=
  match s with
  | EmptyString => EmptyString
  | String c rest =>
      let n := Z.of_nat (nat_of_ascii c) in
      (if isUnreserved c then String c EmptyString
       else if n <? 128 then percent n
       else percent (192 + n / 64) ++ percent (128 + n mod 64))
      ++ encodeURIComponent rest
  end.

(** [String(n)] for an integer that is written with all its decimal
    digits (below 1e21 in absolute value). *)
Definition integerToString (n : Z) : string :=
  if n <? 0 then "-" ++ numeral (- n) else numeral n.

End JS.

(* ===================================================================== *)
(** * Forecast.tsx: the daily forecast buckets *)
(* ===================================================================== *)

Module Forecast.
Import JS.

(** [ForecastItem] of weatherApi.ts. *)
Record Main : Type := {
  temp : Q;
  feels_like : Q;
  humidity : Q;
  pressure : Q;
  temp_min : Q;
  temp_max : Q
}.

Record Condition : Type := {
  condition : string;      (* weather[i].main *)
  description : string;
  icon : string
}.

Record ForecastItem : Type := {
  dt : Z;                  (* epoch seconds *)
  main : Main;
  weather : list Condition;
  wind_speed : Q;          (* wind.speed *)
  dt_txt : string
}.

(** What the component reads from its surroundings: the clock
    ([new Date()], in milliseconds) and the local time zone (minutes
    east of UTC). *)
Record Env : Type := {
  now : Z;
  tz : Z
}.

(** One element of [dailyForecasts]. *)
Record DailyForecast : Type := {
  date : string;
  displayDate : string;
  forecast : option ForecastItem;   (* [None] is [undefined] *)
  minTemp : number;
  maxTemp : number;
  allItems : list ForecastItem
}.

(** [new Date(item.dt * 1000).toISOString().split('T')[0]]. *)
Definition dateKeyOf (item : ForecastItem) : string :=
  hd "" (split "T" (toISOString (dt item * 1000))).

(** The reducer of [groupedByDate]. *)
Definition groupStep (acc : object (list ForecastItem)) (item : ForecastItem)
  : object (list ForecastItem) :=
  let dateKey := dateKeyOf item in
  let acc :=
    match get acc dateKey with
    | None => set acc dateKey []          (* if (!acc[dateKey]) acc[dateKey] = [] *)
    | Some _ => acc
    end in
  modify acc dateKey (fun arr => (arr ++ [item])%list).   (* acc[dateKey].push(item) *)

Definition groupedByDate (forecastItems : list ForecastItem)
  : object (list ForecastItem) :=
  fold_left groupStep forecastItems [].

(** The predicate given to [items.find]. *)
Definition isNoon (e : Env) (item : ForecastItem) : bool :=
  let hour := getHours (tz e) (dt item * 1000) in
  (11 <=? hour) && (hour <=? 14).

(** [noonForecast || items[Math.floor(items.length / 2)] || items[0]]. *)
Definition pickForecast (e : Env) (items : list ForecastItem) : option ForecastItem :=
  match find (isNoon e) items with
  | Some noonForecast => Some noonForecast
  | None =>
      match nth_error items (List.length items / 2)%nat with
      | Some middle => Some middle
      | None => nth_error items 0
      end
  end.

(** The label of a day: lines 38-54. *)
Definition displayDateOf (e : Env) (dateKey : string) : string :=
  let date := parseDate dateKey in
  let today := setHours0 (tz e) (now e) in
  let tomorrow := setDate (tz e) today (getDate (tz e) today + 1) in
  match date with
  | None => "Invalid Date"
  | Some date =>
      let forecastDate := setHours0 (tz e) date in
      if forecastDate =? today then "Today"
      else if forecastDate =? tomorrow then "Tomorrow"
      else toLocaleDateString_wmd (tz e) date
  end.

(** The function mapped over the sorted entries. *)
Definition toDaily (e : Env) (entry : string * list ForecastItem) : DailyForecast :=
  let '(dateKey, items) := entry in
  let temps := map (fun item => temp (main item)) items in
  {| date := dateKey;
     displayDate := displayDateOf e dateKey;
     forecast := pickForecast e items;
     minTemp := Math_min temps;
     maxTemp := Math_max temps;
     allItems := items |}.

Definition byDateKey (a b : string * list ForecastItem) : comparison :=
  localeCompare (fst a) (fst b).

Definition dailyForecasts (e : Env) (forecastItems : list ForecastItem)
  : list DailyForecast :=
  slice0 (map (toDaily e) (sort byDateKey (entries (groupedByDate forecastItems)))) 5.

(** [formatDay], the label of a card of the hourly strip. *)
Definition formatDay (e : Env) (timestamp : Z) : string :=
  let date := timestamp * 1000 in
  let today := now e in
  let tomorrow := setDate (tz e) today (getDate (tz e) today + 1) in
  if String.eqb (toDateString (tz e) date) (toDateString (tz e) today) then "Today"
  else if String.eqb (toDateString (tz e) date) (toDateString (tz e) tomorrow) then "Tomorrow"
  else toLocaleDateString_w (tz e) date.

(** The hourly strip: [forecastItems.slice(0, 8)]. *)
Definition hourlyItems (forecastItems : list ForecastItem) : list ForecastItem :=
  slice0 forecastItems 8.

(** The number of distinct date keys of a sequence. *)
Definition distinctDates (forecastItems : list ForecastItem) : nat :=
  List.length (nodup string_dec (map dateKeyOf forecastItems)).

(** Points used in the examples: only [dt] and [temp] matter. *)
Definition point (seconds : Z) (t : Q) : ForecastItem :=
  {| dt := seconds;
     main := {| temp := t; feels_like := t; humidity := 50; pressure := 1013;
                temp_min := t - 1; temp_max := t + 1 |};
     weather := [ {| condition := "Clear"; description := "clear sky"; icon := "01d" |} ];
     wind_speed := 3;
     dt_txt := "" |}.

(** A run used in the examples: 15:00 UTC on 2024-01-15, and points
    at 11:00 and 13:00 of that day and 09:00 of the next. *)
Definition sampleEnv : Env := {| now := 1705330800000; tz := 0 |}.

Definition sampleItems : list ForecastItem :=
  [point 1705316400 4; point 1705323600 (5 # 2); point 1705395600 7].

Definition sampleDay : DailyForecast :=
  toDaily sampleEnv ("2024-01-15", [point 1705316400 4; point 1705323600 (5 # 2)]).

End Forecast.

(* ===================================================================== *)
(** * weatherApi.ts: city search *)
(* ===================================================================== *)

Module WeatherApi.
Import JS.

Record CitySuggestion : Type := {
  name : any;       (* declared [string]; whatever the record carries *)
  country : any;
  state : any;
  lat : number;
  lon : number
}.

(** ** The network *)

Record Request : Type := {
  url : string;
  headers : list (string * string)
}.

Record Response : Type := {
  ok : bool;
  json : result any       (* what [await response.json()] gives *)
}.

(** An [async] function: it settles, or awaits a [fetch] and goes on
    with what the network answers. *)
Inductive async (A : Type) : Type :=
  | Resolved (a : A)
  | Rejected (e : error)
  | Fetch (req : Request) (k : result Response -> async A).
Arguments Resolved {A} a.
Arguments Rejected {A} e.
Arguments Fetch {A} req k.

Fixpoint bind {A B : Type} (p : async A) (f : A -> async B) : async B :=
  match p with
  | Resolved a => f a
  | Rejected e => Rejected e
  | Fetch req k => Fetch req (fun r => bind (k r) f)
  end.

(** [await fetch(req)]: a failed fetch throws at the [await]. *)
Definition fetch (req : Request) : async Response :=
  Fetch req (fun r =>
    match r with
    | Ok response => Resolved response
    | Throw e => Rejected e
    end).

(** Awaiting a promise that is already settled. *)
Definition await {A : Type} (r : result A) : async A :=
  match r with
  | Ok a => Resolved a
  | Throw e => Rejected e
  end.

(** [try { body } catch (error) { handler }]. *)
Fixpoint tryCatch {A : Type} (body : async A) (handler : error -> async A) : async A :=
  match body with
  | Resolved a => Resolved a
  | Rejected e => handler e
  | Fetch req k => Fetch req (fun r => tryCatch (k r) handler)
  end.

(** Running an [async] function against a network: the requests it
    issued, in order, and how its promise settled. *)
Fixpoint run {A : Type} (net : Request -> result Response) (p : async A)
  : list Request * result A :=
  match p with
  | Resolved a => ([], Ok a)
  | Rejected e => ([], Throw e)
  | Fetch req k =>
      let '(reqs, r) := run net (k (net req)) in (req :: reqs, r)
  end.

Section SearchCities.

(** [parseFloat] applied to any value: the run-time's conversion to a
    string and its decimal parser. *)
Variable parseFloat : any -> number.

(** The predicate given to [data.filter]. *)
Definition isPlace (item : any) : result bool :=
  andThen (prop item "type") (fun t =>
  Ok (isStr t "city" || isStr t "town" || isStr t "administrative")).

(** [item.display_name.split(',')[0]]: only a string has [split]. *)
Definition firstSegment (display_name : any) : result any :=
  match display_name with
  | Str s => Ok (Str (hd "" (split "," s)))
  | _ => Throw TypeError
  end.

(** The function given to [map]; the fields are evaluated in order. *)
Definition toSuggestion (item : any) : result CitySuggestion :=
  andThen (prop item "name") (fun short =>
  andThen (orElse short (andThen (prop item "display_name") firstSegment)) (fun name' =>
  andThen (prop item "address") (fun address =>
  andThen (optProp address "country") (fun c =>
  andThen (orElse c (Ok (Str ""))) (fun country' =>
  andThen (optProp address "state") (fun s =>
  andThen (orElse s (andThen (optProp address "region") (fun r => orElse r (Ok (Str ""))))) (fun state' =>
  andThen (prop item "lat") (fun lat' =>
  andThen (prop item "lon") (fun lon' =>
  Ok {| name := name'; country := country'; state := state';
        lat := parseFloat lat'; lon := parseFloat lon' |}))))))))).

(** [data.filter(...).slice(0, limit).map(...)]. *)
Definition suggestionsOf (data : list any) (limit : Z) : result (list CitySuggestion) :=
  andThen (filterE isPlace data) (fun places =>
  mapE toSuggestion (slice0 places limit)).

Definition searchRequest (query : string) (limit : Z) : Request :=
  {| url := "https://nominatim.openstreetmap.org/search?format=json&q="
            ++ encodeURIComponent query ++ "&limit=" ++ integerToString limit
            ++ "&addressdetails=1";
     headers := [("User-Agent", "WeatherApp/1.0")] |}.

Definition searchCities (query : string) (limit : Z) : async (list CitySuggestion) :=
  if negb (truthy (Str (trim query))) || (String.length query <? 2)%nat then
    Resolved []
  else
    tryCatch
      (bind (fetch (searchRequest query limit)) (fun response =>
       if negb (ok response) then Resolved []
       else
         bind (await (json response)) (fun data =>
         match data with
         | Array items => await (suggestionsOf items limit)
         | _ => Resolved []
         end)))
      (fun _ => Resolved []).          (* console.error(...); return [] *)

End SearchCities.

(** A raw record as the geocoder sends them. *)
Definition place (type short display_name country' lat' lon' : string) : any :=
  Object [("type", Str type); ("name", Str short); ("display_name", Str display_name);
          ("address", Object [("country", Str country')]);
          ("lat", Str lat'); ("lon", Str lon')].

(** A network that answers every request with the same response. *)
Definition always (r : result Response) : Request -> result Response :=
  fun _ => r.

(** A conversion for the examples: decimal strings with a sign and
    whole digits only, anything else NaN. *)
Definition parseInteger (v : any) : number :=
  match v with
  | Str (String "-" digits) =>
      match digits, parseDigits 0 digits with
      | String _ _, Some n => Finite (inject_Z (- n))
      | _, _ => NaN
      end
  | Str (String c digits) =>
      match parseDigits 0 (String c digits) with
      | Some n => Finite (inject_Z n)
      | None => NaN
      end
  | _ => NaN
  end.

Definition sampleData : list any :=
  [ place "city" "Paris" "Paris, Ile-de-France, France" "France" "48" "2";
    place "house" "Paris Bar" "Paris Bar, Berlin" "Germany" "52" "13";
    place "town" "" "Paris, Texas, United States" "United States" "33" "-95";
    place "administrative" "Paris" "Paris, Kentucky" "United States" "38" "-84" ].

(** A fetch that fails. *)
Definition net_fails : result Response := Throw NetworkError.

Definition sampleResponse : Response :=
  {| ok := true; json := Ok (Array sampleData) |}.

End WeatherApi.

(* ===================================================================== *)
(** * CityAutocomplete.tsx: the autocomplete engine *)
(* ===================================================================== *)

Module CityAutocomplete.
Import JS WeatherApi.

(** The state of a mounted component: the [value] prop (the parent's
    [searchQuery], which [onChange] sets), the three [useState] cells
    and the debounce timer with the text it will search for. *)
Record State : Type := {
  value : string;
  suggestions : list CitySuggestion;
  isOpen : bool;
  selectedIndex : Z;
  debounce : option string
}.

Inductive Key : Type :=
  | ArrowDown
  | ArrowUp
  | Enter
  | Escape
  | OtherKey (key : string).

Inductive Event : Type :=
  | Change (text : string)                        (* the user edits the input *)
  | DebounceElapsed                               (* the 300 ms timer fires *)
  | QueryCompleted (results : list CitySuggestion) (* [await searchCities] returns *)
  | KeyDown (key : Key)
  | MouseDown (inside : bool)                     (* anywhere in the document *)
  | Focus
  | Click (index : nat).                          (* on a row of the panel *)

(** What a handler does besides changing the state. *)
Inductive Effect : Type :=
  | PreventDefault
  | OnChange (text : string)
  | OnSelect (city : CitySuggestion)
  | Search (query : string) (limit : Z).

Definition initial (v : string) : State :=
  {| value := v; suggestions := []; isOpen := false; selectedIndex := -1;
     debounce := None |}.

Definition setSuggestions (xs : list CitySuggestion) (st : State) : State :=
  {| value := value st; suggestions := xs; isOpen := isOpen st;
     selectedIndex := selectedIndex st; debounce := debounce st |}.

Definition setIsOpen (b : bool) (st : State) : State :=
  {| value := value st; suggestions := suggestions st; isOpen := b;
     selectedIndex := selectedIndex st; debounce := debounce st |}.

Definition setSelectedIndex (f : Z -> Z) (st : State) : State :=
  {| value := value st; suggestions := suggestions st; isOpen := isOpen st;
     selectedIndex := f (selectedIndex st); debounce := debounce st |}.

Definition setDebounce (d : option string) (st : State) : State :=
  {| value := value st; suggestions := suggestions st; isOpen := isOpen st;
     selectedIndex := selectedIndex st; debounce := d |}.

Definition setValue (v : string) (st : State) : State :=
  {| value := v; suggestions := suggestions st; isOpen := isOpen st;
     selectedIndex := selectedIndex st; debounce := debounce st |}.

(** The rendering condition of the panel (line 133). *)
Definition panelShown (st : State) : bool :=
  isOpen st && negb (List.length (suggestions st) =? 0)%nat.

(** The effect on [value], lines 30-56, run when the prop changed: the
    pending timer is cleared; a short text empties and closes the panel,
    a longer one arms a new timer. *)
Definition valueEffect (st : State) : State :=
  let st := setDebounce None st in
  if (String.length (value st) <? 2)%nat then
    setIsOpen false (setSuggestions [] st)
  else
    setDebounce (Some (value st)) st.

(** The render after a handler: the effect on [value] runs when the
    prop differs from the one of the previous render. *)
Definition render (previous st : State) : State :=
  if String.eqb (value st) (value previous) then st else valueEffect st.

(** The parent, Weather.tsx: [onChange] is [setSearchQuery], and
    [onSelect] is [handleCitySelect], which clears the query before it
    fetches the weather of the city. *)
Definition setSearchQuery (text : string) (st : State) : State := setValue text st.

Definition handleCitySelect (st : State) : State := setSearchQuery "" st.

(** [handleInputChange]. *)
Definition handleInputChange (text : string) (st : State) : State :=
  render st (setSearchQuery text st).

(** The timer's callback up to its [await]. *)
Definition debounceElapsed (st : State) : State * list Effect :=
  match debounce st with
  | Some query => (setDebounce None st, [Search query 5])
  | None => (st, [])
  end.

(** The timer's callback after its [await], lines 46-48. *)
Definition queryCompleted (results : list CitySuggestion) (st : State) : State :=
  setSelectedIndex (fun _ => -1)
    (setIsOpen (negb (List.length results =? 0)%nat)
      (setSuggestions results st)).

(** [handleClickOutside]; the container is there while mounted. *)
Definition handleClickOutside (inside : bool) (st : State) : State :=
  if negb inside then setIsOpen false st else st.

Section Engine.

(** Conversion to a string inside a template literal. *)
Variable toString : any -> string.

(** [getCityDisplayName], also written out in [handleSelect]. *)
Definition getCityDisplayName (city : CitySuggestion) : string :=
  toString (name city)
    ++ (if truthy (state city) then ", " ++ toString (state city) else "")
    ++ ", " ++ toString (country city).

(** The four calls are batched into one render. *)
Definition handleSelect (city : CitySuggestion) (st : State) : State * list Effect :=
  let text := getCityDisplayName city in
  let st1 := setSearchQuery text st in       (* onChange(text) *)
  let st2 := handleCitySelect st1 in         (* onSelect(city) *)
  let st3 := setIsOpen false st2 in
  let st4 := setSuggestions [] st3 in
  (render st st4, [OnChange text; OnSelect city]).

Definition handleKeyDown (key : Key) (st : State) : State * list Effect :=
  if negb (isOpen st) || (List.length (suggestions st) =? 0)%nat then (st, [])
  else
    let len := Z.of_nat (List.length (suggestions st)) in
    match key with
    | ArrowDown =>
        (setSelectedIndex (fun prev => if prev <? len - 1 then prev + 1 else prev) st,
         [PreventDefault])
    | ArrowUp =>
        (setSelectedIndex (fun prev => if 0 <? prev then prev - 1 else -1) st,
         [PreventDefault])
    | Enter =>
        if (0 <=? selectedIndex st) && (selectedIndex st <? len) then
          match nth_error (suggestions st) (Z.to_nat (selectedIndex st)) with
          | Some city =>
              let '(st', effects) := handleSelect city st in
              (st', PreventDefault :: effects)
          | None => (st, [PreventDefault])     (* not reached: the index is in range *)
          end
        else (st, [PreventDefault])
    | Escape => (setIsOpen false st, [])
    | OtherKey _ => (st, [])
    end.

Definition handleFocus (st : State) : State :=
  if negb (List.length (suggestions st) =? 0)%nat then setIsOpen true st else st.

(** A click on a row; rows exist only while the panel is shown. *)
Definition handleClick (index : nat) (st : State) : State * list Effect :=
  if panelShown st then
    match nth_error (suggestions st) index with
    | Some city => handleSelect city st
    | None => (st, [])
    end
  else (st, []).

Definition step (st : State) (ev : Event) : State * list Effect :=
  match ev with
  | Change text => (handleInputChange text st, [OnChange text])
  | DebounceElapsed => debounceElapsed st
  | QueryCompleted results => (queryCompleted results st, [])
  | KeyDown key => handleKeyDown key st
  | MouseDown inside => (handleClickOutside inside st, [])
  | Focus => (handleFocus st, [])
  | Click index => handleClick index st
  end.

(** The state after a sequence of events. *)
Definition steps (st : State) (evs : list Event) : State :=
  fold_left (fun st ev => fst (step st ev)) evs st.

(** Pressing the same key [n] times. *)
Definition press (key : Key) (n : nat) (st : State) : State :=
  steps st (repeat (KeyDown key) n).

(** Whether a handler committed a suggestion. *)
Definition commits (effects : list Effect) : list CitySuggestion :=
  flat_map (fun eff => match eff with OnSelect city => [city] | _ => [] end) effects.

End Engine.

(** The states a mounted component can be in. *)
Inductive reachable (toString : any -> string) : State -> Prop :=
  | reachable_initial : forall v, reachable toString (valueEffect (initial v))
  | reachable_step : forall st ev,
      reachable toString st -> reachable toString (fst (step toString st ev)).

(** A conversion for the examples: strings as they are. *)
Definition plainToString (v : any) : string :=
  match v with
  | Str s => s
  | _ => ""
  end.

Definition city (n c : string) : CitySuggestion :=
  {| name := Str n; country := Str c; state := Str ""; lat := Finite 0; lon := Finite 0 |}.

(** The component after the text [Pa] was typed, the timer fired and
    the search returned three cities. *)
Definition sampleEvents : list Event :=
  [Change "Pa"; DebounceElapsed;
   QueryCompleted [city "Paris" "France"; city "Padova" "Italy"; city "Patna" "India"]].

Definition sampleState : State :=
  steps plainToString (valueEffect (initial "")) sampleEvents.

End CityAutocomplete.

(* ===================================================================== *)
(** * Forecast.tsx: what a card shows *)
(* ===================================================================== *)

Module ForecastView.
Import JS Forecast.

(** [d.getUTCFullYear()]. *)
Definition getUTCFullYear (t : Z) : Z :=
  let '(y, _, _) := civilFromDays (Day t) in y.

(** [xs.join(sep)]. *)
Fixpoint join (sep : string) (xs : list string) : string :=
  match xs with
  | [] => EmptyString
  | [x] => x
  | x :: rest => x ++ sep ++ join sep rest
  end.

(** [Math.round]: the nearest integer, a half going up. *)
Definition Math_round (x : number) : number :=
  match x with
  | Finite q => Finite (inject_Z (Qfloor (q + (1 # 2))))
  | other => other
  end.

(** [day.forecast.dt_txt.split(' ')[0].split('-').slice(1).join('/')],
    the small date under the label of a day; reading [dt_txt] of a
    missing forecast throws. *)
Definition dateLine (day : DailyForecast) : result string :=
  match forecast day with
  | None => Throw TypeError
  | Some f => Ok (join "/" (tl (split "-" (hd "" (split " " (dt_txt f))))))
  end.

(** [day.forecast.weather[0].icon] inside the address of the image. *)
Definition iconUrl (day : DailyForecast) : result string :=
  match forecast day with
  | None => Throw TypeError
  | Some f =>
      match weather f with
      | [] => Throw TypeError
      | first :: _ => Ok ("https://openweathermap.org/img/wn/" ++ icon first ++ ".png")
      end
  end.

(** [Math.round(day.maxTemp)] and [Math.round(day.minTemp)]. *)
Definition highShown (day : DailyForecast) : number := Math_round (maxTemp day).
Definition lowShown (day : DailyForecast) : number := Math_round (minTemp day).

(** Six noons, one a day from 2024-01-20 back to 2024-01-15. *)
Definition sixNoons : list ForecastItem :=
  map (fun k => point (1705320000 + 86400 * k) (inject_Z k)) [5; 4; 3; 2; 1; 0].

(** 12:00 local time on 2024-01-15, five hours behind UTC, with a point
    at 13:00 local time of that day and of the next. *)
Definition westEnv : Env := {| now := 1705338000000; tz := -300 |}.

Definition westItems : list ForecastItem :=
  [point 1705341600 5; point 1705428000 7].

End ForecastView.

(* ===================================================================== *)
(** * weatherApi.ts: current weather and forecast requests *)
(* ===================================================================== *)

Module WeatherFetch.
Import JS WeatherApi.

(** What the promise of a request is rejected with: an error of the
    run-time, or [new Error(message)], kept with the value given as its
    message. *)
Inductive rejection : Type :=
  | Native (e : error)
  | NewError (message : any).

(** An [async] function that may throw either. *)
Inductive task (A : Type) : Type :=
  | Fulfilled (a : A)
  | Failed (r : rejection)
  | Awaiting (req : Request) (k : result Response -> task A).
Arguments Fulfilled {A} a.
Arguments Failed {A} r.
Arguments Awaiting {A} req k.

Fixpoint runTask {A : Type} (net : Request -> result Response) (p : task A)
  : list Request * (A + rejection) :=
  match p with
  | Fulfilled a => ([], inl a)
  | Failed r => ([], inr r)
  | Awaiting req k =>
      let '(reqs, r) := runTask net (k (net req)) in (req :: reqs, r)
  end.

(** [await p] for a promise settled by the run-time. *)
Definition awaitResult {A : Type} (r : result A) (k : A -> task any) : task any :=
  match r with
  | Ok a => k a
  | Throw e => Failed (Native e)
  end.

Section Client.

(** The key read from the environment at build time, and the conversion
    of a number inside a template literal. *)
Variable API_KEY : string.
Variable numberToString : number -> string.

Definition BASE_URL : string := "https://api.openweathermap.org/data/2.5".

(** The body the four functions share: they differ by the address and
    by the message of the fallback. *)
Definition fetchOrThrow (address fallback : string) : task any :=
  Awaiting {| url := address; headers := [] |} (fun r =>
    awaitResult r (fun response =>
      if negb (ok response) then
        awaitResult (json response) (fun error =>
        awaitResult (prop error "message") (fun message =>
        Failed (NewError (if truthy message then message else Str fallback))))
      else
        awaitResult (json response) (fun data => Fulfilled data))).

Definition getWeatherByCoords (lat lon : number) : task any :=
  fetchOrThrow
    (BASE_URL ++ "/weather?lat=" ++ numberToString lat ++ "&lon=" ++ numberToString lon
       ++ "&appid=" ++ API_KEY ++ "&units=metric")
    "Failed to fetch weather data".

Definition getWeatherByCity (city : string) : task any :=
  fetchOrThrow
    (BASE_URL ++ "/weather?q=" ++ encodeURIComponent city
       ++ "&appid=" ++ API_KEY ++ "&units=metric")
    "Failed to fetch weather data".

Definition getForecastByCoords (lat lon : number) : task any :=
  fetchOrThrow
    (BASE_URL ++ "/forecast?lat=" ++ numberToString lat ++ "&lon=" ++ numberToString lon
       ++ "&appid=" ++ API_KEY ++ "&units=metric")
    "Failed to fetch forecast data".

Definition getForecastByCity (city : string) : task any :=
  fetchOrThrow
    (BASE_URL ++ "/forecast?q=" ++ encodeURIComponent city
       ++ "&appid=" ++ API_KEY ++ "&units=metric")
    "Failed to fetch forecast data".

(** The four calls of the client. *)
Inductive call : Type :=
  | WeatherByCoords (lat lon : number)
  | WeatherByCity (city : string)
  | ForecastByCoords (lat lon : number)
  | ForecastByCity (city : string).

Definition perform (c : call) : task any :=
  match c with
  | WeatherByCoords lat lon => getWeatherByCoords lat lon
  | WeatherByCity city => getWeatherByCity city
  | ForecastByCoords lat lon => getForecastByCoords lat lon
  | ForecastByCity city => getForecastByCity city
  end.

Definition fallbackOf (c : call) : string :=
  match c with
  | WeatherByCoords _ _ | WeatherByCity _ => "Failed to fetch weather data"
  | ForecastByCoords _ _ | ForecastByCity _ => "Failed to fetch forecast data"
  end.

End Client.

(** The number of times a character occurs in a string. *)
Fixpoint occurrences (c : ascii) (s : string) : nat :=
  match s with
  | EmptyString => O
  | String c' rest => ((if Ascii.eqb c' c then 1 else 0) + occurrences c rest)%nat
  end.

(** A conversion for the examples: whole numbers only. *)
Definition wholeToString (x : number) : string :=
  match x with
  | Finite q => integerToString (Qfloor q)
  | NaN => "NaN"
  | PosInfinity => "Infinity"
  | NegInfinity => "-Infinity"
  end.

(** The provider's answer to an unknown city. *)
Definition notFound : Response :=
  {| ok := false;
     json := Ok (Object [("cod", Str "404"); ("message", Str "city not found")]) |}.

End WeatherFetch.

(* ===================================================================== *)
(** * Facts about the run-time model *)
(* ===================================================================== *)

Module JSFacts.
Import JS.
Local Open Scope list_scope.

Section ObjectFacts.
Context {V : Type}.
Implicit Types (o : object V) (k : string) (v : V).

Definition keys o : list string := map fst o.

Lemma get_None_iff o k : get o k = None <-> ~ In k (keys o).
Proof.
  induction o as [|[k' v'] o IH]; simpl.
  - tauto.
  - destruct (String.eqb_spec k' k) as [->|Hne].
    + split; [discriminate | intros H; exfalso; apply H; now left].
    + rewrite IH. split; [intros H [E|E]; auto | intros H E; apply H; now right].
Qed.

Lemma get_In o k v : get o k = Some v -> In (k, v) o.
Proof.
  induction o as [|[k' v'] o IH]; simpl; [discriminate|].
  destruct (String.eqb_spec k' k) as [->|Hne].
  - intros [= ->]. now left.
  - intros H. right. auto.
Qed.

Lemma In_get o k v : NoDup (keys o) -> In (k, v) o -> get o k = Some v.
Proof.
  induction o as [|[k' v'] o IH]; simpl; [tauto|].
  intros Hnd [E|Hin].
  - injection E as -> ->. now rewrite String.eqb_refl.
  - inversion Hnd as [|? ? Hnotin Hnd']; subst.
    destruct (String.eqb_spec k' k) as [->|Hne].
    + exfalso. apply Hnotin. change k with (fst (k, v)). now apply in_map.
    + auto.
Qed.

Lemma keys_set_absent o k v : get o k = None -> keys (set o k v) = keys o ++ [k].
Proof.
  induction o as [|[k' v'] o IH]; simpl; [reflexivity|].
  destruct (String.eqb k' k); [discriminate|].
  intros H. simpl. now rewrite IH.
Qed.

Lemma get_set o k v k' :
  get (set o k v) k' = if String.eqb k k' then Some v else get o k'.
Proof.
  induction o as [|[k0 v0] o IH]; simpl.
  - reflexivity.
  - destruct (String.eqb_spec k0 k) as [->|Hne]; simpl.
    + destruct (String.eqb k k'); reflexivity.
    + rewrite IH. destruct (String.eqb_spec k0 k') as [->|Hne'].
      * destruct (String.eqb_spec k k'); [congruence | reflexivity].
      * reflexivity.
Qed.

Lemma keys_modify o k f : keys (modify o k f) = keys o.
Proof.
  induction o as [|[k' v'] o IH]; simpl; [reflexivity|].
  destruct (String.eqb k' k); simpl; [reflexivity | now rewrite IH].
Qed.

Lemma get_modify o k f k' :
  get (modify o k f) k' = if String.eqb k k' then option_map f (get o k') else get o k'.
Proof.
  induction o as [|[k0 v0] o IH]; simpl.
  - now destruct (String.eqb k k').
  - destruct (String.eqb_spec k0 k) as [->|Hne]; simpl.
    + destruct (String.eqb k k'); reflexivity.
    + rewrite IH. destruct (String.eqb_spec k0 k') as [->|Hne'].
      * destruct (String.eqb_spec k k'); [congruence | reflexivity].
      * reflexivity.
Qed.
End ObjectFacts.

Section ArrayFacts.
Context {A : Type}.

Lemma insert_perm (cmp : A -> A -> comparison) x xs :
  Permutation (insert cmp x xs) (x :: xs).
Proof.
  induction xs as [|y xs IH]; simpl; [reflexivity|].
  destruct (cmp x y); try reflexivity.
  rewrite IH. apply perm_swap.
Qed.

Lemma sort_perm (cmp : A -> A -> comparison) xs : Permutation (sort cmp xs) xs.
Proof.
  induction xs as [|x xs IH]; simpl; [reflexivity|].
  unfold sort in IH. rewrite insert_perm. now constructor.
Qed.

Lemma slice0_nonneg (xs : list A) e :
  0 <= e -> slice0 xs e = firstn (Z.to_nat e) xs.
Proof.
  intros He. unfold slice0.
  destruct (Z.ltb_spec e 0) as [|_]; [lia|].
  destruct (Z.le_ge_cases e (Z.of_nat (List.length xs))) as [Hle|Hge].
  - now rewrite Z.min_l.
  - rewrite Z.min_r by assumption. rewrite Nat2Z.id.
    rewrite firstn_all. symmetry. apply firstn_all2. lia.
Qed.

Lemma firstn_In n (xs : list A) x : In x (firstn n xs) -> In x xs.
Proof.
  intros H. rewrite <- (firstn_skipn n xs). apply in_or_app. now left.
Qed.

Lemma StronglySorted_firstn (R : A -> A -> Prop) n xs :
  StronglySorted R xs -> StronglySorted R (firstn n xs).
Proof.
  intros H. revert n.
  induction H as [|x xs Hs IH Hall]; intros [|n]; simpl; try constructor.
  - apply IH.
  - rewrite Forall_forall in *. intros y Hy. apply Hall.
    eapply firstn_In; eauto.
Qed.
End ArrayFacts.

(** The code-unit order on strings is a strict total order. *)
Definition before (a b : string) : Prop := localeCompare a b = Lt.

Lemma before_trans a b c : before a b -> before b c -> before a c.
Proof.
  unfold before, localeCompare. intros H1 H2.
  exact (StrictOrder_Transitive (R := String_as_OT.lt) a b c H1 H2).
Qed.

Lemma localeCompare_Gt a b : localeCompare a b = Gt -> before b a.
Proof.
  unfold before, localeCompare. intros H.
  destruct (String_as_OT.compare_spec a b) as [E|L|G]; try discriminate.
  exact G.
Qed.

Lemma localeCompare_Eq a b : localeCompare a b = Eq -> a = b.
Proof.
  unfold localeCompare. intros H.
  destruct (String_as_OT.compare_spec a b) as [E|L|G]; try discriminate.
  exact E.
Qed.

(** Sorting entries with distinct keys puts the keys in strictly
    ascending order. *)
Section SortByKey.
Context {V : Type}.
Let cmp (a b : string * V) : comparison := localeCompare (fst a) (fst b).
Let lt (a b : string * V) : Prop := before (fst a) (fst b).

Lemma insert_sorted x xs :
  StronglySorted lt xs -> ~ In (fst x) (map fst xs) ->
  StronglySorted lt (insert cmp x xs).
Proof.
  induction 1 as [|y xs Hs IH Hall]; simpl; intros Hnotin.
  - repeat constructor.
  - assert (Hrest : ~ In (fst x) (map fst xs)) by tauto.
    destruct (cmp x y) eqn:E.
    + exfalso. apply Hnotin. left. symmetry. now apply localeCompare_Eq.
    + constructor; [now constructor|].
      constructor; [exact E|].
      rewrite Forall_forall in *. intros z Hz.
      eapply before_trans; [exact E | now apply Hall].
    + constructor; [now apply IH|].
      rewrite Forall_forall in *. intros z Hz.
      apply (Permutation_in _ (insert_perm cmp x xs)) in Hz.
      destruct Hz as [<-|Hz]; [now apply localeCompare_Gt | now apply Hall].
Qed.

Lemma sort_sorted xs :
  NoDup (map fst xs) -> StronglySorted lt (sort cmp xs).
Proof.
  induction xs as [|x xs IH]; simpl; intros Hnd.
  - constructor.
  - inversion Hnd as [|? ? Hnotin Hnd']; subst.
    apply insert_sorted; [now apply IH|].
    intros Hin. apply Hnotin.
    eapply Permutation_in; [|exact Hin].
    apply Permutation_map, sort_perm.
Qed.
End SortByKey.

Lemma fold_Qmin_In xs x : In (fold_left Qmin xs x) (x :: xs).
Proof.
  revert x. induction xs as [|y xs IH]; intros x; simpl; [now left|].
  destruct (IH (Qmin x y)) as [E|Hin]; [|now right; right].
  rewrite <- E. unfold Qmin, GenericMinMax.gmin.
  destruct (x ?= y)%Q; [now left | now left | now right; left].
Qed.

Lemma fold_Qmin_le xs x y : In y (x :: xs) -> (fold_left Qmin xs x <= y)%Q.
Proof.
  revert x y. induction xs as [|z xs IH]; intros x y; simpl.
  - intros [->|[]]. apply Qle_refl.
  - intros [<-|[<-|Hin]].
    + eapply Qle_trans; [apply IH; now left | apply Q.le_min_l].
    + eapply Qle_trans; [apply IH; now left | apply Q.le_min_r].
    + apply IH. now right.
Qed.

Lemma fold_Qmax_In xs x : In (fold_left Qmax xs x) (x :: xs).
Proof.
  revert x. induction xs as [|y xs IH]; intros x; simpl; [now left|].
  destruct (IH (Qmax x y)) as [E|Hin]; [|now right; right].
  rewrite <- E. unfold Qmax, GenericMinMax.gmax.
  destruct (x ?= y)%Q; [now left | now right; left | now left].
Qed.

Lemma fold_Qmax_ge xs x y : In y (x :: xs) -> (y <= fold_left Qmax xs x)%Q.
Proof.
  revert x y. induction xs as [|z xs IH]; intros x y; simpl.
  - intros [->|[]]. apply Qle_refl.
  - intros [<-|[<-|Hin]].
    + eapply Qle_trans; [apply Q.le_max_l | apply IH; now left].
    + eapply Qle_trans; [apply Q.le_max_r | apply IH; now left].
    + apply IH. now right.
Qed.

End JSFacts.

(* ===================================================================== *)
(** * The forecast aggregator *)
(* ===================================================================== *)

Module ForecastSpec.
Import JS JSFacts Forecast.
Local Open Scope list_scope.

(** The points of a sequence that fall on the date [k], in the order of
    the sequence. *)
Definition itemsOn (k : string) (items : list ForecastItem) : list ForecastItem :=
  filter (fun item => String.eqb (dateKeyOf item) k) items.

(** The array stored under [k], empty when there is none. *)
Definition bucket (acc : object (list ForecastItem)) (k : string) : list ForecastItem :=
  match get acc k with
  | Some arr => arr
  | None => []
  end.

(** Input in chronological order, as the weather provider sends it. *)
Definition chronological (items : list ForecastItem) : Prop :=
  StronglySorted (fun a b => dt a <= dt b) items.

(** Buckets in strictly ascending order of their date keys. *)
Definition ascendingDates (days : list DailyForecast) : Prop :=
  StronglySorted (fun a b => before (date a) (date b)) days.

Lemma groupStep_keys acc item :
  keys (groupStep acc item)
  = keys acc ++ match get acc (dateKeyOf item) with
                | Some _ => []
                | None => [dateKeyOf item]
                end.
Proof.
  unfold groupStep. rewrite keys_modify.
  destruct (get acc (dateKeyOf item)) eqn:E.
  - now rewrite app_nil_r.
  - now apply keys_set_absent.
Qed.

Lemma groupStep_bucket acc item k :
  bucket (groupStep acc item) k
  = bucket acc k ++ (if String.eqb (dateKeyOf item) k then [item] else []).
Proof.
  unfold bucket, groupStep. rewrite get_modify.
  destruct (String.eqb_spec (dateKeyOf item) k) as [<-|Hne].
  - destruct (get acc (dateKeyOf item)) eqn:E.
    + now rewrite E.
    + rewrite get_set, String.eqb_refl. reflexivity.
  - rewrite app_nil_r.
    destruct (get acc (dateKeyOf item)) eqn:E; [reflexivity|].
    rewrite get_set. destruct (String.eqb_spec (dateKeyOf item) k); [contradiction|].
    reflexivity.
Qed.

Lemma fold_groupStep items : forall acc,
  NoDup (keys acc) ->
  NoDup (keys (fold_left groupStep items acc))
  /\ (forall k, In k (keys (fold_left groupStep items acc))
                <-> In k (keys acc) \/ In k (map dateKeyOf items))
  /\ (forall k, bucket (fold_left groupStep items acc) k
                = bucket acc k ++ itemsOn k items).
Proof.
  induction items as [|item items IH]; intros acc Hnd; simpl.
  - repeat split; auto; try tauto. intros k. now rewrite app_nil_r.
  - assert (Hnd' : NoDup (keys (groupStep acc item))).
    { rewrite groupStep_keys.
      destruct (get acc (dateKeyOf item)) eqn:E; [now rewrite app_nil_r|].
      apply get_None_iff in E.
      apply NoDup_rev in Hnd. rewrite <- (rev_involutive (keys acc ++ _)).
      apply NoDup_rev. rewrite rev_app_distr. simpl. constructor; [|assumption].
      now rewrite <- in_rev. }
    destruct (IH _ Hnd') as (H1 & H2 & H3).
    split; [exact H1|]. split.
    + intros k. rewrite H2, groupStep_keys, in_app_iff.
      destruct (get acc (dateKeyOf item)) eqn:E; simpl.
      * assert (In (dateKeyOf item) (keys acc)).
        { destruct (in_dec string_dec (dateKeyOf item) (keys acc)) as [Hin|Hout]; [assumption|].
          apply get_None_iff in Hout. congruence. }
        split; [tauto|]. intros [Hk|[<-|Hk]]; tauto.
      * tauto.
    + intros k. rewrite H3, groupStep_bucket, <- app_assoc. f_equal.
      unfold itemsOn. simpl. now destruct (String.eqb (dateKeyOf item) k).
Qed.

Lemma grouped_NoDup items : NoDup (keys (groupedByDate items)).
Proof. apply (fold_groupStep items []). constructor. Qed.

Lemma grouped_keys items k :
  In k (keys (groupedByDate items)) <-> In k (map dateKeyOf items).
Proof.
  destruct (fold_groupStep items [] (NoDup_nil _)) as (_ & H & _).
  unfold groupedByDate. rewrite H. simpl. tauto.
Qed.

(** Every entry of [groupedByDate] holds exactly the points of its
    date, and at least one. *)
Lemma grouped_entry items k arr :
  In (k, arr) (groupedByDate items) ->
  arr = itemsOn k items /\ arr <> [].
Proof.
  intros Hin.
  pose proof (In_get _ _ _ (grouped_NoDup items) Hin) as Hget.
  destruct (fold_groupStep items [] (NoDup_nil _)) as (_ & _ & H).
  specialize (H k). unfold bucket, groupedByDate in *. rewrite Hget in H.
  simpl in H. split; [exact H|].
  assert (Hk : In k (map dateKeyOf items)).
  { apply grouped_keys. change k with (fst (k, arr)). now apply in_map. }
  apply in_map_iff in Hk. destruct Hk as (item & Hkey & Hitem).
  intros ->. 
  assert (Hf : In item (itemsOn k items)).
  { apply filter_In. split; [assumption|]. now apply String.eqb_eq. }
  rewrite <- H in Hf. exact Hf.
Qed.

Lemma grouped_length items :
  List.length (groupedByDate items) = distinctDates items.
Proof.
  unfold distinctDates.
  rewrite <- (length_map fst (groupedByDate items)).
  apply Permutation_length, NoDup_Permutation.
  - apply grouped_NoDup.
  - apply NoDup_nodup.
  - intros k. rewrite nodup_In. apply grouped_keys.
Qed.

Lemma dailyForecasts_eq e items :
  dailyForecasts e items
  = firstn 5 (map (toDaily e) (sort byDateKey (groupedByDate items))).
Proof. unfold dailyForecasts, entries. now rewrite slice0_nonneg by lia. Qed.

Lemma dailyForecasts_In e items b :
  In b (dailyForecasts e items) ->
  exists k arr, b = toDaily e (k, arr) /\ In (k, arr) (groupedByDate items).
Proof.
  rewrite dailyForecasts_eq. intros Hin. apply firstn_In in Hin.
  apply in_map_iff in Hin. destruct Hin as ([k arr] & <- & Hin).
  exists k, arr. split; [reflexivity|].
  eapply Permutation_in; [apply sort_perm | exact Hin].
Qed.

(** The points of a bucket are the points of its date. *)
Lemma dailyForecasts_allItems e items b :
  In b (dailyForecasts e items) ->
  allItems b = itemsOn (date b) items /\ allItems b <> []
  /\ forecast b = pickForecast e (allItems b)
  /\ minTemp b = Math_min (map (fun item => temp (main item)) (allItems b))
  /\ maxTemp b = Math_max (map (fun item => temp (main item)) (allItems b)).
Proof.
  intros Hin. destruct (dailyForecasts_In _ _ _ Hin) as (k & arr & -> & Hentry).
  destruct (grouped_entry _ _ _ Hentry) as [Harr Hne]. simpl. auto.
Qed.

Lemma StronglySorted_map {A B : Type} (f : A -> B) (R : B -> B -> Prop) xs :
  StronglySorted (fun a b => R (f a) (f b)) xs -> StronglySorted R (map f xs).
Proof.
  induction 1 as [|x xs Hs IH Hall]; simpl; constructor; [assumption|].
  rewrite Forall_forall in *. intros y Hy.
  apply in_map_iff in Hy. destruct Hy as (z & <- & Hz). now apply Hall.
Qed.

Lemma StronglySorted_impl {A : Type} (R R' : A -> A -> Prop) xs :
  (forall a b, R a b -> R' a b) -> StronglySorted R xs -> StronglySorted R' xs.
Proof.
  intros Himpl. induction 1 as [|x xs Hs IH Hall]; constructor; [assumption|].
  rewrite Forall_forall in *. auto.
Qed.

Lemma StronglySorted_filter {A : Type} (R : A -> A -> Prop) (f : A -> bool) xs :
  StronglySorted R xs -> StronglySorted R (filter f xs).
Proof.
  induction 1 as [|x xs Hs IH Hall]; simpl; [constructor|].
  destruct (f x); [|assumption].
  constructor; [assumption|].
  rewrite Forall_forall in *. intros y Hy. apply Hall.
  apply filter_In in Hy. tauto.
Qed.

Lemma StronglySorted_after {A : Type} (R : A -> A -> Prop) xs x ys :
  StronglySorted R (xs ++ x :: ys) -> Forall (R x) ys.
Proof.
  induction xs as [|z xs IH]; simpl; intros H.
  - now apply StronglySorted_inv in H.
  - apply StronglySorted_inv in H. tauto.
Qed.

(** [xs.find(f)] returns the first element, in array order, that
    satisfies [f]. *)
Lemma find_first {A : Type} (f : A -> bool) xs p :
  find f xs = Some p ->
  exists earlier later,
    xs = earlier ++ p :: later /\ f p = true
    /\ forall q, In q earlier -> f q = false.
Proof.
  induction xs as [|x xs IH]; simpl; [discriminate|].
  destruct (f x) eqn:E.
  - intros [= <-]. exists [], xs. simpl. tauto.
  - intros H. destruct (IH H) as (earlier & later & -> & Hp & Hq).
    exists (x :: earlier), later. simpl. repeat split; auto.
    intros q [<-|Hin]; auto.
Qed.

Lemma find_some_if {A : Type} (f : A -> bool) xs q :
  In q xs -> f q = true -> exists p, find f xs = Some p.
Proof.
  intros Hin Hq. destruct (find f xs) eqn:E; [eauto|].
  now rewrite (find_none _ _ E _ Hin) in Hq.
Qed.

Lemma find_none_if {A : Type} (f : A -> bool) xs :
  (forall q, In q xs -> f q = false) -> find f xs = None.
Proof.
  intros H. destruct (find f xs) eqn:E; [|reflexivity].
  apply find_some in E. destruct E as [Hin Hf]. rewrite (H _ Hin) in Hf. discriminate.
Qed.

Lemma middle_exists {A : Type} (xs : list A) :
  xs <> [] -> exists p, nth_error xs (List.length xs / 2)%nat = Some p.
Proof.
  intros Hne. destruct (nth_error xs (List.length xs / 2)%nat) eqn:E; [eauto|].
  apply nth_error_None in E. destruct xs as [|x xs]; [contradiction|].
  exfalso. simpl List.length in E.
  pose proof (Nat.div_lt (S (List.length xs)) 2). lia.
Qed.

(** ** The claims *)

(** There is one bucket per date key, up to five, and the buckets are
    in the order in which [localeCompare] puts their keys. *)
Lemma dailyForecasts_keys_counted (e : Env) (items : list ForecastItem) :
  List.length (dailyForecasts e items) = Nat.min (distinctDates items) 5
  /\ ascendingDates (dailyForecasts e items).
Proof.
  rewrite dailyForecasts_eq. split.
  - rewrite length_firstn, length_map.
    rewrite (Permutation_length (sort_perm byDateKey (groupedByDate items))).
    rewrite grouped_length. apply Nat.min_comm.
  - apply StronglySorted_firstn, StronglySorted_map.
    apply StronglySorted_impl
      with (R := fun a b : string * list ForecastItem => before (fst a) (fst b)).
    + now intros [k1 arr1] [k2 arr2].
    + apply (sort_sorted (groupedByDate items)), grouped_NoDup.
Qed.

(** The claim C2 as the specification words it: whenever some point of
    a bucket has its local hour in 11..14, the representative point is
    the earliest such point in time. *)
Definition representativeIsEarliestNoon : Prop :=
  forall e items b p,
    In b (dailyForecasts e items) ->
    forecast b = Some p ->
    (exists q, In q (allItems b) /\ isNoon e q = true) ->
    forall q, In q (allItems b) -> isNoon e q = true -> dt p <= dt q.

(** C2, as stated, fails on a sequence that is not in chronological
    order: for the points 13:00 then 11:00 of 2024-01-15 (UTC zone) the
    representative is the 13:00 point, the first of the array. *)
Lemma C2_unsorted_counterexample : ~ representativeIsEarliestNoon.
Proof.
  intros H.
  pose (e := {| now := 1705338000000; tz := 0 |}).
  pose (p13 := point 1705323600 5).
  pose (p11 := point 1705316400 4).
  specialize (H e [p13; p11] (toDaily e ("2024-01-15", [p13; p11])) p13).
  assert (Hle : dt p13 <= dt p11).
  { apply H.
    - vm_compute. left. reflexivity.
    - reflexivity.
    - exists p11. split; [right; left; reflexivity | reflexivity].
    - right. left. reflexivity.
    - reflexivity. }
  vm_compute in Hle. apply Hle. reflexivity.
Qed.

(** C2, amended.  Every bucket has a non-empty point list.  If one of
    its points has its local hour in 11..14, the representative is the
    first such point in the order of the list (which is the order of the
    input), and that is the earliest one in time when the input is in
    chronological order.  If none has, the representative is the element
    at index floor(length / 2). *)
Theorem C2_representative_point (e : Env) (items : list ForecastItem) (b : DailyForecast) :
  In b (dailyForecasts e items) ->
  allItems b <> []
  /\ ((exists q, In q (allItems b) /\ isNoon e q = true) ->
      exists p earlier later,
        forecast b = Some p
        /\ isNoon e p = true
        /\ allItems b = earlier ++ p :: later
        /\ (forall q, In q earlier -> isNoon e q = false)
        /\ (chronological items ->
            forall q, In q (allItems b) -> isNoon e q = true -> dt p <= dt q))
  /\ ((forall q, In q (allItems b) -> isNoon e q = false) ->
      exists p,
        forecast b = Some p
        /\ nth_error (allItems b) (List.length (allItems b) / 2)%nat = Some p).
Proof.
  intros Hin.
  destruct (dailyForecasts_allItems _ _ _ Hin) as (Hall & Hne & Hpick & _).
  split; [exact Hne|]. split.
  - intros (q0 & Hq0 & Hnoon0).
    destruct (find_some_if _ _ _ Hq0 Hnoon0) as (p & Hfind).
    destruct (find_first _ _ _ Hfind) as (earlier & later & Hsplit & Hp & Hearlier).
    exists p, earlier, later.
    split; [rewrite Hpick; unfold pickForecast; now rewrite Hfind|].
    repeat split; auto.
    intros Hchron q Hq Hnoon.
    assert (Hsorted : chronological (allItems b)).
    { rewrite Hall. now apply StronglySorted_filter. }
    rewrite Hsplit in Hsorted, Hq.
    apply StronglySorted_after in Hsorted. rewrite Forall_forall in Hsorted.
    apply in_app_or in Hq. destruct Hq as [Hq|[<-|Hq]].
    + rewrite (Hearlier _ Hq) in Hnoon. discriminate.
    + lia.
    + now apply Hsorted.
  - intros Hnone.
    destruct (middle_exists _ Hne) as (p & Hp).
    exists p. split; [|exact Hp].
    rewrite Hpick. unfold pickForecast.
    now rewrite (find_none_if _ _ Hnone), Hp.
Qed.

(** C3.  The minimum and maximum of a bucket are taken over the [temp]
    field of the points grouped under its date: they are [temp] values
    of the bucket, every point's [temp] lies between them, and the
    minimum is at most the maximum. *)
Theorem C3_min_max_temp (e : Env) (items : list ForecastItem) (b : DailyForecast) :
  In b (dailyForecasts e items) ->
  allItems b = itemsOn (date b) items
  /\ exists lo hi : Q,
       minTemp b = Finite lo
       /\ maxTemp b = Finite hi
       /\ In lo (map (fun item => temp (main item)) (allItems b))
       /\ In hi (map (fun item => temp (main item)) (allItems b))
       /\ (forall item, In item (allItems b) ->
             (lo <= temp (main item))%Q /\ (temp (main item) <= hi)%Q)
       /\ (lo <= hi)%Q.
Proof.
  intros Hin.
  destruct (dailyForecasts_allItems _ _ _ Hin) as (Hall & Hne & _ & Hmin & Hmax).
  split; [exact Hall|].
  destruct (allItems b) as [|x xs] eqn:E; [contradiction|].
  simpl in Hmin, Hmax.
  set (temps := map (fun item => temp (main item)) xs) in *.
  exists (fold_left Qmin temps (temp (main x))), (fold_left Qmax temps (temp (main x))).
  split; [exact Hmin|]. split; [exact Hmax|].
  split; [apply fold_Qmin_In|]. split; [apply fold_Qmax_In|].
  assert (Hbound : forall item, In item (x :: xs) ->
            (fold_left Qmin temps (temp (main x)) <= temp (main item))%Q
            /\ (temp (main item) <= fold_left Qmax temps (temp (main x)))%Q).
  { intros item Hitem.
    assert (Ht : In (temp (main item)) (temp (main x) :: temps)).
    { change (temp (main x) :: temps)
        with (map (fun item => temp (main item)) (x :: xs)).
      exact (in_map (fun item => temp (main item)) _ _ Hitem). }
    split; [now apply fold_Qmin_le | now apply fold_Qmax_ge]. }
  split; [exact Hbound|].
  destruct (Hbound x (or_introl eq_refl)) as [H1 H2].
  eapply Qle_trans; eassumption.
Qed.

(** C2 and C3 on the sample run: the day 2024-01-15 holds the points of
    11:00 and 13:00. *)
Lemma sampleDay_In : In sampleDay (dailyForecasts sampleEnv sampleItems).
Proof. vm_compute. left. reflexivity. Defined.

Lemma C2_representative_point_witness :
  In sampleDay (dailyForecasts sampleEnv sampleItems)
  /\ allItems sampleDay <> []
  /\ ((exists q, In q (allItems sampleDay) /\ isNoon sampleEnv q = true) ->
      exists p earlier later,
        forecast sampleDay = Some p
        /\ isNoon sampleEnv p = true
        /\ allItems sampleDay = earlier ++ p :: later
        /\ (forall q, In q earlier -> isNoon sampleEnv q = false)
        /\ (chronological sampleItems ->
            forall q, In q (allItems sampleDay) -> isNoon sampleEnv q = true ->
            dt p <= dt q))
  /\ ((forall q, In q (allItems sampleDay) -> isNoon sampleEnv q = false) ->
      exists p,
        forecast sampleDay = Some p
        /\ nth_error (allItems sampleDay) (List.length (allItems sampleDay) / 2)%nat
           = Some p).
Proof.
  split; [exact sampleDay_In|].
  exact (C2_representative_point sampleEnv sampleItems sampleDay sampleDay_In).
Defined.

Lemma C3_min_max_temp_witness :
  In sampleDay (dailyForecasts sampleEnv sampleItems)
  /\ allItems sampleDay = itemsOn (date sampleDay) sampleItems
  /\ exists lo hi : Q,
       minTemp sampleDay = Finite lo
       /\ maxTemp sampleDay = Finite hi
       /\ In lo (map (fun item => temp (main item)) (allItems sampleDay))
       /\ In hi (map (fun item => temp (main item)) (allItems sampleDay))
       /\ (forall item, In item (allItems sampleDay) ->
             (lo <= temp (main item))%Q /\ (temp (main item) <= hi)%Q)
       /\ (lo <= hi)%Q.
Proof.
  split; [exact sampleDay_In|].
  exact (C3_min_max_temp sampleEnv sampleItems sampleDay sampleDay_In).
Defined.

Example sampleDay_values :
  map (fun b => (date b, displayDate b, option_map dt (forecast b), minTemp b, maxTemp b))
      (dailyForecasts sampleEnv sampleItems)
  = [("2024-01-15", "Today", Some 1705316400, Finite (5 # 2), Finite 4);
     ("2024-01-16", "Tomorrow", Some 1705395600, Finite 7, Finite 7)].
Proof. vm_compute. reflexivity. Qed.

(** West of Greenwich, UTC midnight of a day lies in the evening of the
    local day before, so cutting it down to local midnight gives the
    day before. *)
Lemma utc_midnight_west_of_utc (zone day : Z) :
  -1440 < zone < 0 ->
  setHours0 zone (day * msPerDay) = UTC zone ((day - 1) * msPerDay).
Proof.
  intros Hzone. unfold setHours0, LocalTime, UTC, Day, msPerDay, msPerMinute.
  f_equal. f_equal. symmetry.
  apply Z.div_unique with (r := 86400000 + zone * 60000); lia.
Qed.

(** C8 fails west of Greenwich.  At 12:00 local time on 2024-01-15 in a
    zone five hours behind UTC, the points of 13:00 local time today and
    tomorrow both fall on the local date the hourly strip names for
    them, yet the bucket of the first is labelled with yesterday's date
    and the bucket of the second is labelled Today: the date key is
    parsed as UTC midnight and then cut down to the local day. *)
Theorem C8_labels_west_of_utc :
  let e := {| now := 1705338000000; tz := -300 |} in
  let items := [point 1705341600 5; point 1705428000 7] in
  map (fun item => formatDay e (dt item)) items = ["Today"; "Tomorrow"]
  /\ map (fun b => (date b, displayDate b)) (dailyForecasts e items)
     = [("2024-01-15", "Sun, Jan 14"); ("2024-01-16", "Today")].
Proof. split; vm_compute; reflexivity. Qed.

End ForecastSpec.

(* ===================================================================== *)
(** * City search *)
(* ===================================================================== *)

Module WeatherApiSpec.
Import JS JSFacts WeatherApi.
Local Open Scope list_scope.

(** The property [k] of a record, [undefined] when there is none. *)
Definition field (item : any) (k : string) : any :=
  match prop item k with
  | Ok v => v
  | Throw _ => Undefined
  end.

(** The classification the search keeps. *)
Definition placeType (t : any) : Prop :=
  t = Str "city" \/ t = Str "town" \/ t = Str "administrative".

(** The first comma-separated segment of a string. *)
Definition firstCommaSegment (s : string) : string := hd EmptyString (split "," s).

(** [c] is the suggestion made from the raw record [item]. *)
Definition madeFrom (parseFloat : any -> number) (item : any) (c : CitySuggestion) : Prop :=
  placeType (field item "type")
  /\ (truthy (field item "name") = true /\ name c = field item "name"
      \/ truthy (field item "name") = false
         /\ exists full, field item "display_name" = Str full
                         /\ name c = Str (firstCommaSegment full))
  /\ lat c = parseFloat (field item "lat")
  /\ lon c = parseFloat (field item "lon").

(** How the promise of [searchCities] settles and what it requested. *)
Definition settles (parseFloat : any -> number) (net : Request -> result Response)
    (query : string) (limit : Z) : result (list CitySuggestion) :=
  snd (run net (searchCities parseFloat query limit)).

Definition requests (parseFloat : any -> number) (net : Request -> result Response)
    (query : string) (limit : Z) : list Request :=
  fst (run net (searchCities parseFloat query limit)).

Lemma isStr_true v s : isStr v s = true -> v = Str s.
Proof.
  destruct v; simpl; try discriminate.
  intros H. apply String.eqb_eq in H. now subst.
Qed.

Lemma isPlace_true item :
  isPlace item = Ok true -> placeType (field item "type").
Proof.
  unfold isPlace, field. destruct (prop item "type") as [t|err]; simpl; [|discriminate].
  intros [= H]. unfold placeType.
  apply orb_true_iff in H. destruct H as [H|H].
  - apply orb_true_iff in H. destruct H as [H|H]; apply isStr_true in H; auto.
  - apply isStr_true in H; auto.
Qed.

Lemma filterE_In {A : Type} (p : A -> result bool) xs : forall ys y,
  filterE p xs = Ok ys -> In y ys -> In y xs /\ p y = Ok true.
Proof.
  induction xs as [|x xs IH]; simpl; intros ys y.
  - intros [= <-] [].
  - destruct (p x) as [keep|err] eqn:Ep; simpl; [|discriminate].
    destruct (filterE p xs) as [rest|err]; simpl; [|discriminate].
    intros [= <-] Hin. destruct keep.
    + destruct Hin as [<-|Hin]; [tauto|]. destruct (IH rest y eq_refl Hin). tauto.
    + destruct (IH rest y eq_refl Hin). tauto.
Qed.

Lemma mapE_Forall2 {A B : Type} (f : A -> result B) xs : forall ys,
  mapE f xs = Ok ys -> Forall2 (fun x y => f x = Ok y) xs ys.
Proof.
  induction xs as [|x xs IH]; simpl; intros ys.
  - intros [= <-]. constructor.
  - destruct (f x) as [y|err] eqn:Ef; simpl; [|discriminate].
    destruct (mapE f xs) as [rest|err]; simpl; [|discriminate].
    intros [= <-]. constructor; auto.
Qed.

Lemma Forall2_In_r {A B : Type} (R : A -> B -> Prop) xs ys y :
  Forall2 R xs ys -> In y ys -> exists x, In x xs /\ R x y.
Proof.
  induction 1 as [|x0 y0 xs ys HR Hrest IH]; simpl; [tauto|].
  intros [<-|Hin]; [eauto|]. destruct (IH Hin) as (x & Hx & Hxy). eauto.
Qed.

Lemma slice0_In {A : Type} (xs : list A) e x : In x (slice0 xs e) -> In x xs.
Proof. unfold slice0. apply firstn_In. Qed.

Lemma slice0_length {A : Type} (xs : list A) e :
  0 <= e -> Z.of_nat (List.length (slice0 xs e)) <= e.
Proof.
  intros He. rewrite slice0_nonneg by assumption.
  pose proof (firstn_le_length (Z.to_nat e) xs). lia.
Qed.

Lemma andThen_Ok {A B : Type} (r : result A) (f : A -> result B) b :
  andThen r f = Ok b -> exists a, r = Ok a /\ f a = Ok b.
Proof. destruct r as [a|err]; simpl; [eauto | discriminate]. Qed.

Lemma prop_field item k v : prop item k = Ok v -> field item k = v.
Proof. unfold field. now intros ->. Qed.

Lemma toSuggestion_madeFrom parseFloat item c :
  isPlace item = Ok true -> toSuggestion parseFloat item = Ok c ->
  madeFrom parseFloat item c.
Proof.
  intros Hplace Hc. split; [now apply isPlace_true|].
  unfold toSuggestion in Hc.
  apply andThen_Ok in Hc as (short & Hshort & Hc).
  apply andThen_Ok in Hc as (name' & Hname & Hc).
  apply andThen_Ok in Hc as (address & _ & Hc).
  apply andThen_Ok in Hc as (c0 & _ & Hc).
  apply andThen_Ok in Hc as (country' & _ & Hc).
  apply andThen_Ok in Hc as (s0 & _ & Hc).
  apply andThen_Ok in Hc as (state' & _ & Hc).
  apply andThen_Ok in Hc as (lat' & Hlat & Hc).
  apply andThen_Ok in Hc as (lon' & Hlon & Hc).
  injection Hc as <-. simpl.
  rewrite (prop_field _ _ _ Hshort), (prop_field _ _ _ Hlat), (prop_field _ _ _ Hlon).
  split; [|split; reflexivity].
  unfold orElse in Hname. destruct (truthy short) eqn:Etruthy.
  - left. injection Hname as <-. split; reflexivity.
  - right. split; [reflexivity|].
    apply andThen_Ok in Hname as (full & Hfull & Hseg).
    rewrite (prop_field _ _ _ Hfull).
    destruct full; simpl in Hseg; try discriminate.
    injection Hseg as <-. eexists. split; reflexivity.
Qed.

(** What [data.filter(...).slice(0, limit).map(...)] returns when no
    callback throws. *)
Lemma suggestionsOf_spec parseFloat items limit out :
  suggestionsOf parseFloat items limit = Ok out ->
  (0 <= limit -> Z.of_nat (List.length out) <= limit)
  /\ forall c, In c out -> exists item, In item items /\ madeFrom parseFloat item c.
Proof.
  unfold suggestionsOf. intros H.
  apply andThen_Ok in H as (places & Hplaces & Hmap).
  apply mapE_Forall2 in Hmap. split.
  - intros Hlimit. rewrite <- (Forall2_length Hmap). now apply slice0_length.
  - intros c Hc.
    destruct (Forall2_In_r _ _ _ _ Hmap Hc) as (item & Hitem & Hmade).
    apply slice0_In in Hitem.
    destruct (filterE_In _ _ _ _ Hplaces Hitem) as [Hin Hplace].
    exists item. split; [exact Hin|]. now apply toSuggestion_madeFrom.
Qed.

(** The promise of [searchCities] always resolves. *)
Lemma searchCities_resolves parseFloat net query limit :
  exists out, settles parseFloat net query limit = Ok out.
Proof.
  unfold settles, searchCities.
  destruct (negb _ || _); simpl; [eauto|].
  destruct (net (searchRequest query limit)) as [response|err]; simpl; [|eauto].
  destruct (ok response); simpl; [|eauto].
  destruct (json response) as [data|err]; simpl; [|eauto].
  destruct data; simpl; eauto.
  destruct (suggestionsOf parseFloat xs limit); simpl; eauto.
Qed.

(** ** The claims *)

(** C4.  [searchCities] never raises: whatever the query, the limit and
    the network do, its promise resolves; and it resolves to the empty
    list when the fetch fails, when the status is not a success, when
    reading the body as JSON throws and when the body is not an array. *)
Theorem C4_searchCities_never_raises
    (parseFloat : any -> number) (net : Request -> result Response)
    (query : string) (limit : Z) :
  (exists out, settles parseFloat net query limit = Ok out)
  /\ (forall err, net (searchRequest query limit) = Throw err ->
        settles parseFloat net query limit = Ok [])
  /\ (forall response, net (searchRequest query limit) = Ok response ->
        (ok response = false
         \/ (exists err, json response = Throw err)
         \/ (exists data, json response = Ok data /\ isArray data = false)) ->
        settles parseFloat net query limit = Ok []).
Proof.
  split; [apply searchCities_resolves|].
  unfold settles, searchCities.
  destruct (negb _ || _); simpl; [split; reflexivity|].
  split.
  - intros err ->. reflexivity.
  - intros response -> Hcases. simpl.
    destruct (ok response); simpl; [|reflexivity].
    destruct Hcases as [Hok|[(err & ->)|(data & -> & Harr)]]; simpl.
    + discriminate.
    + reflexivity.
    + destruct data; simpl in *; try reflexivity. discriminate.
Qed.

Lemma C4_searchCities_never_raises_witness :
  net_fails = Throw NetworkError
  /\ settles parseInteger (always net_fails) "Paris" 5 = Ok []
  /\ settles parseInteger (always (Ok {| ok := true; json := Ok (Object []) |})) "Paris" 5
     = Ok [].
Proof.
  split; [reflexivity|]. split.
  - apply (proj1 (proj2 (C4_searchCities_never_raises parseInteger (always net_fails)
                           "Paris" 5)) NetworkError).
    reflexivity.
  - apply (proj2 (proj2 (C4_searchCities_never_raises parseInteger
                           (always (Ok {| ok := true; json := Ok (Object []) |}))
                           "Paris" 5)) {| ok := true; json := Ok (Object []) |}).
    + reflexivity.
    + right. right. exists (Object []). split; reflexivity.
Defined.

(** C5 as the specification words it: a query shorter than two
    characters after trimming is answered without a network call. *)
Definition shortAfterTrimIsNotSent : Prop :=
  forall parseFloat net query limit,
    (String.length (trim query) < 2)%nat ->
    run net (searchCities parseFloat query limit) = ([], Ok []).

(** C5, as stated, fails for a letter followed by a space: one
    character is left after trimming, and the query is sent. *)
Lemma C5_trimmed_length_counterexample : ~ shortAfterTrimIsNotSent.
Proof.
  intros H.
  specialize (H parseInteger (always (Ok sampleResponse)) "a " 5).
  assert (Hshort : (String.length (trim "a ") < 2)%nat) by (vm_compute; lia).
  specialize (H Hshort). vm_compute in H. discriminate H.
Qed.

(** C5, amended.  A query that is empty after trimming, or whose
    untrimmed length is below 2, is answered with the empty list without
    a network call; every other query issues exactly one request. *)
Theorem C5_short_query_is_not_sent
    (parseFloat : any -> number) (net : Request -> result Response)
    (query : string) (limit : Z) :
  (trim query = EmptyString \/ (String.length query < 2)%nat ->
     searchCities parseFloat query limit = Resolved []
     /\ run net (searchCities parseFloat query limit) = ([], Ok []))
  /\ (trim query <> EmptyString -> (2 <= String.length query)%nat ->
     requests parseFloat net query limit = [searchRequest query limit]).
Proof.
  unfold requests, searchCities. simpl truthy. split.
  - intros Hshort.
    assert (Hguard : negb (negb (String.eqb (trim query) "")) || (String.length query <? 2)%nat
                     = true).
    { destruct Hshort as [->|Hlen].
      - reflexivity.
      - apply orb_true_iff. right. now apply Nat.ltb_lt. }
    rewrite Hguard. split; reflexivity.
  - intros Hne Hlen.
    assert (Hguard : negb (negb (String.eqb (trim query) "")) || (String.length query <? 2)%nat
                     = false).
    { apply orb_false_iff. split.
      - rewrite negb_involutive. now apply String.eqb_neq.
      - apply Nat.ltb_ge. lia. }
    rewrite Hguard. simpl.
    destruct (net (searchRequest query limit)) as [response|err]; simpl; [|reflexivity].
    destruct (ok response); simpl; [|reflexivity].
    destruct (json response) as [data|err]; simpl; [|reflexivity].
    destruct data; simpl; try reflexivity.
    destruct (suggestionsOf parseFloat xs limit); reflexivity.
Qed.

Lemma C5_short_query_is_not_sent_witness :
  (trim " " = EmptyString \/ (String.length " " < 2)%nat)
  /\ searchCities parseInteger " " 5 = Resolved []
  /\ requests parseInteger (always (Ok sampleResponse)) "Paris" 5
     = [searchRequest "Paris" 5].
Proof.
  pose proof (C5_short_query_is_not_sent parseInteger (always (Ok sampleResponse)) " " 5)
    as [Hshort _].
  pose proof (C5_short_query_is_not_sent parseInteger (always (Ok sampleResponse)) "Paris" 5)
    as [_ Hlong].
  split; [left; reflexivity|]. split.
  - apply Hshort. left. reflexivity.
  - apply Hlong; [discriminate | vm_compute; lia].
Defined.

(** C6.  For a response whose body is an array, the promise resolves
    to a list of at most [limit] suggestions ([limit] being a count, not
    negative); each one is made from a record of the array whose type
    is city, town or administrative: its name is the record's name, or
    the first comma-separated segment of the display name when the
    record has no name, and its coordinates are [parseFloat] of the
    record's [lat] and [lon]. *)
Theorem C6_suggestions_from_array
    (parseFloat : any -> number) (net : Request -> result Response)
    (query : string) (limit : Z) (response : Response) (items : list any) :
  net (searchRequest query limit) = Ok response ->
  ok response = true ->
  json response = Ok (Array items) ->
  exists out,
    settles parseFloat net query limit = Ok out
    /\ (0 <= limit -> Z.of_nat (List.length out) <= limit)
    /\ forall c, In c out -> exists item, In item items /\ madeFrom parseFloat item c.
Proof.
  intros Hnet Hok Hjson.
  unfold settles, searchCities.
  destruct (negb _ || _); simpl.
  - exists []. split; [reflexivity|]. split; [simpl; lia | intros c []].
  - rewrite Hnet. simpl. rewrite Hok. simpl. rewrite Hjson. simpl.
    destruct (suggestionsOf parseFloat items limit) as [out|err] eqn:E; simpl.
    + exists out. split; [reflexivity|]. now apply suggestionsOf_spec.
    + exists []. split; [reflexivity|]. split; [simpl; lia | intros c []].
Qed.

Lemma C6_suggestions_from_array_witness :
  always (Ok sampleResponse) (searchRequest "Paris" 2) = Ok sampleResponse
  /\ exists out,
       settles parseInteger (always (Ok sampleResponse)) "Paris" 2 = Ok out
       /\ (0 <= 2 -> Z.of_nat (List.length out) <= 2)
       /\ forall c, In c out ->
            exists item, In item sampleData /\ madeFrom parseInteger item c.
Proof.
  split; [reflexivity|].
  apply (C6_suggestions_from_array parseInteger (always (Ok sampleResponse))
           "Paris" 2 sampleResponse sampleData); reflexivity.
Defined.

(** The sample response at limit 2: the house is dropped, the town
    without a name takes the first segment of its display name, and the
    fourth record is cut off. *)
Example sampleResponse_suggestions :
  settles parseInteger (always (Ok sampleResponse)) "Paris" 2
  = Ok [ {| name := Str "Paris"; country := Str "France"; state := Str "";
            lat := Finite 48; lon := Finite 2 |};
         {| name := Str "Paris"; country := Str "United States"; state := Str "";
            lat := Finite 33; lon := Finite (-95) |} ].
Proof. vm_compute. reflexivity. Qed.

(** A record that is [null] makes the filter throw; the error is caught
    and the list is empty. *)
Example null_record_is_swallowed :
  settles parseInteger
    (always (Ok {| ok := true; json := Ok (Array (sampleData ++ [Null])) |})) "Paris" 5
  = Ok [].
Proof. vm_compute. reflexivity. Qed.

End WeatherApiSpec.

(* ===================================================================== *)
(** * The autocomplete engine *)
(* ===================================================================== *)

Module CityAutocompleteSpec.
Import JS WeatherApi CityAutocomplete.
Local Open Scope list_scope.

Section EngineFacts.
Variable toString : any -> string.

Local Abbreviation step := (step toString).
Local Abbreviation press := (press toString).

(** The number of suggestions, as the code compares it with the cursor. *)
Definition len (st : State) : Z := Z.of_nat (List.length (suggestions st)).

(** The cursor is -1 (no selection) or the index of a suggestion. *)
Definition cursorInRange (st : State) : Prop :=
  -1 <= selectedIndex st <= len st - 1.

Lemma panelShown_true st :
  panelShown st = true ->
  isOpen st = true /\ (List.length (suggestions st) =? 0)%nat = false.
Proof.
  unfold panelShown. intros H. apply andb_true_iff in H. destruct H as [H1 H2].
  split; [exact H1|]. now apply negb_true_iff.
Qed.

Lemma handleKeyDown_shown key st :
  panelShown st = true ->
  handleKeyDown toString key st
  = match key with
    | ArrowDown =>
        (setSelectedIndex (fun prev => if prev <? len st - 1 then prev + 1 else prev) st,
         [PreventDefault])
    | ArrowUp =>
        (setSelectedIndex (fun prev => if 0 <? prev then prev - 1 else -1) st,
         [PreventDefault])
    | Enter =>
        if (0 <=? selectedIndex st) && (selectedIndex st <? len st) then
          match nth_error (suggestions st) (Z.to_nat (selectedIndex st)) with
          | Some city =>
              (fst (handleSelect toString city st),
               PreventDefault :: snd (handleSelect toString city st))
          | None => (st, [PreventDefault])
          end
        else (st, [PreventDefault])
    | Escape => (setIsOpen false st, [])
    | OtherKey _ => (st, [])
    end.
Proof.
  intros H. destruct (panelShown_true _ H) as [Hopen Hlen].
  unfold handleKeyDown. rewrite Hopen, Hlen. simpl.
  destruct key; try reflexivity.
Qed.

Lemma press_S key n st :
  press key (S n) st = press key n (fst (step st (KeyDown key))).
Proof. reflexivity. Qed.

(** ArrowDown moves the cursor up by the number of presses, stopping at
    the last suggestion. *)
Lemma press_ArrowDown n : forall st,
  panelShown st = true -> selectedIndex st <= len st - 1 ->
  selectedIndex (press ArrowDown n st) = Z.min (selectedIndex st + Z.of_nat n) (len st - 1)
  /\ suggestions (press ArrowDown n st) = suggestions st
  /\ isOpen (press ArrowDown n st) = true.
Proof.
  induction n as [|n IH]; intros st Hshown Hle.
  - destruct (panelShown_true _ Hshown) as [Hopen _].
    unfold press, CityAutocomplete.press. simpl. repeat split; [lia | exact Hopen].
  - rewrite press_S. simpl. rewrite (handleKeyDown_shown _ _ Hshown). simpl.
    set (st1 := setSelectedIndex _ st).
    assert (Hshown1 : panelShown st1 = true) by exact Hshown.
    assert (Hlen1 : len st1 = len st) by reflexivity.
    assert (Hsel1 : selectedIndex st1
                    = if selectedIndex st <? len st - 1 then selectedIndex st + 1
                      else selectedIndex st) by reflexivity.
    destruct (IH st1 Hshown1) as (H1 & H2 & H3).
    { rewrite Hlen1, Hsel1. destruct (Z.ltb_spec (selectedIndex st) (len st - 1)); lia. }
    rewrite H1, H2, H3, Hlen1, Hsel1.
    repeat split; try reflexivity.
    destruct (Z.ltb_spec (selectedIndex st) (len st - 1)); lia.
Qed.

(** No event takes the cursor out of range while there are suggestions. *)
Definition cursorInvariant (st : State) : Prop :=
  suggestions st <> [] -> cursorInRange st.

(** A render keeps the cursor and keeps or empties the list; it leaves
    a closed panel closed. *)
Lemma render_fields previous st :
  selectedIndex (render previous st) = selectedIndex st
  /\ (suggestions (render previous st) = suggestions st
      \/ suggestions (render previous st) = [])
  /\ (isOpen st = false -> isOpen (render previous st) = false).
Proof.
  unfold render. destruct (String.eqb (value st) (value previous)); [auto|].
  unfold valueEffect. simpl. destruct (String.length (value st) <? 2)%nat; simpl; auto.
Qed.

Lemma handleSelect_closes city st :
  suggestions (fst (handleSelect toString city st)) = []
  /\ isOpen (fst (handleSelect toString city st)) = false.
Proof.
  unfold handleSelect. simpl.
  match goal with |- context [render st ?st4] =>
    destruct (render_fields st st4) as (_ & Hsug & Hopen)
  end.
  split; [destruct Hsug as [Hsug|Hsug]; rewrite Hsug; reflexivity | now apply Hopen].
Qed.

Lemma step_cursorInvariant st ev :
  cursorInvariant st -> cursorInvariant (fst (step st ev)).
Proof.
  unfold cursorInvariant, cursorInRange, len. intros Hinv.
  destruct ev as [text| |results|key|inside| |index]; simpl.
  - unfold handleInputChange.
    destruct (render_fields st (setSearchQuery text st)) as (Hsel & [Hsug|Hsug] & _);
      rewrite Hsel, Hsug; [exact Hinv | congruence].
  - unfold debounceElapsed. destruct (debounce st); simpl; exact Hinv.
  - intros Hne. destruct results; [congruence|]. simpl List.length. lia.
  - unfold handleKeyDown.
    destruct (negb (isOpen st) || (List.length (suggestions st) =? 0)%nat) eqn:Eguard;
      [exact Hinv|].
    destruct key; simpl; try exact Hinv.
    + intros Hne. specialize (Hinv Hne).
      destruct (Z.ltb_spec (selectedIndex st)
                  (Z.of_nat (List.length (suggestions st)) - 1)); lia.
    + intros Hne. specialize (Hinv Hne).
      destruct (Z.ltb_spec 0 (selectedIndex st)); lia.
    + destruct ((0 <=? selectedIndex st)
                && (selectedIndex st <? Z.of_nat (List.length (suggestions st))));
        [|exact Hinv].
      destruct (nth_error (suggestions st) (Z.to_nat (selectedIndex st))) as [city|];
        [|exact Hinv].
      destruct (handleSelect_closes city st) as [Hsug _].
      intros Hne. exfalso. apply Hne. exact Hsug.
  - unfold handleClickOutside. destruct (negb inside); exact Hinv.
  - unfold handleFocus. destruct (negb _); exact Hinv.
  - unfold handleClick. destruct (panelShown st); [|exact Hinv].
    destruct (nth_error (suggestions st) index) as [city|]; [|exact Hinv].
    destruct (handleSelect_closes city st) as [Hsug _].
    intros Hne. exfalso. apply Hne. exact Hsug.
Qed.

Lemma reachable_cursorInvariant st :
  reachable toString st -> cursorInvariant st.
Proof.
  induction 1 as [v|st ev Hreach IH].
  - unfold cursorInvariant, valueEffect. simpl.
    destruct (String.length v <? 2)%nat; simpl; congruence.
  - now apply step_cursorInvariant.
Qed.

Lemma reachable_steps st evs :
  reachable toString st -> reachable toString (steps toString st evs).
Proof.
  revert st. induction evs as [|ev evs IH]; intros st H; simpl; [exact H|].
  apply IH. now constructor.
Qed.

Lemma reachable_cursorInRange st :
  reachable toString st -> panelShown st = true -> cursorInRange st.
Proof.
  intros Hreach Hshown. apply (reachable_cursorInvariant _ Hreach).
  destruct (panelShown_true _ Hshown) as [_ Hlen].
  intros E. rewrite E in Hlen. discriminate.
Qed.

End EngineFacts.

(** ** The claims *)

(** C7.  In every state the component can reach, with the panel shown
    (so with len >= 1 suggestions), the cursor is in [-1, len - 1].
    ArrowDown adds one to it but stops at len - 1, ArrowUp subtracts one
    but stops at -1, and neither changes the list or closes the panel;
    len presses of ArrowDown from -1 end on len - 1, and so do more.
    Enter with the cursor on a suggestion commits that suggestion
    ([onChange] receives its label, the selection callback receives the
    suggestion, the panel is emptied and closed); Enter with no
    selection changes nothing and commits nothing. *)
Theorem C7_keyboard_cursor (toString : any -> string) (st : State) :
  reachable toString st ->
  panelShown st = true ->
  let down := fst (step toString st (KeyDown ArrowDown)) in
  let up := fst (step toString st (KeyDown ArrowUp)) in
  cursorInRange st
  /\ (selectedIndex down = Z.min (selectedIndex st + 1) (len st - 1)
      /\ suggestions down = suggestions st /\ isOpen down = true
      /\ cursorInRange down)
  /\ (selectedIndex up = Z.max (selectedIndex st - 1) (-1)
      /\ suggestions up = suggestions st /\ isOpen up = true
      /\ cursorInRange up)
  /\ (forall n,
        selectedIndex (press toString ArrowDown n st)
        = Z.min (selectedIndex st + Z.of_nat n) (len st - 1))
  /\ (selectedIndex st = -1 ->
      forall n, (List.length (suggestions st) <= n)%nat ->
        selectedIndex (press toString ArrowDown n st) = len st - 1)
  /\ (0 <= selectedIndex st ->
      exists city,
        nth_error (suggestions st) (Z.to_nat (selectedIndex st)) = Some city
        /\ step toString st (KeyDown Enter)
           = (fst (handleSelect toString city st),
              [PreventDefault; OnChange (getCityDisplayName toString city); OnSelect city])
        /\ suggestions (fst (handleSelect toString city st)) = []
        /\ isOpen (fst (handleSelect toString city st)) = false)
  /\ (selectedIndex st = -1 ->
      step toString st (KeyDown Enter) = (st, [PreventDefault])
      /\ commits (snd (step toString st (KeyDown Enter))) = []).
Proof.
  intros Hreach Hshown down up.
  pose proof (reachable_cursorInRange toString st Hreach Hshown) as Hrange.
  unfold cursorInRange in Hrange.
  assert (Hdown : down = setSelectedIndex
                    (fun prev => if prev <? len st - 1 then prev + 1 else prev) st).
  { subst down. simpl. now rewrite (handleKeyDown_shown toString _ _ Hshown). }
  assert (Hup : up = setSelectedIndex (fun prev => if 0 <? prev then prev - 1 else -1) st).
  { subst up. simpl. now rewrite (handleKeyDown_shown toString _ _ Hshown). }
  destruct (panelShown_true _ Hshown) as [Hopen Hlen].
  split; [exact Hrange|]. split; [|split; [|split; [|split; [|split]]]].
  - rewrite Hdown. unfold cursorInRange, len. simpl. fold (len st).
    destruct (Z.ltb_spec (selectedIndex st) (len st - 1)); repeat split; auto; lia.
  - rewrite Hup. unfold cursorInRange, len. simpl. fold (len st).
    destruct (Z.ltb_spec 0 (selectedIndex st)); repeat split; auto; lia.
  - intros n. apply (press_ArrowDown toString n st Hshown). lia.
  - intros Hsel n Hn.
    destruct (press_ArrowDown toString n st Hshown) as [H _]; [lia|].
    rewrite H, Hsel. unfold len in *. lia.
  - intros Hsel. simpl. rewrite (handleKeyDown_shown toString _ _ Hshown).
    assert (Hguard : (0 <=? selectedIndex st) && (selectedIndex st <? len st) = true).
    { apply andb_true_iff. split; [apply Z.leb_le | apply Z.ltb_lt]; lia. }
    rewrite Hguard.
    destruct (nth_error (suggestions st) (Z.to_nat (selectedIndex st))) as [city|] eqn:E.
    + exists city. split; [reflexivity|]. split; [reflexivity|].
      apply (handleSelect_closes toString).
    + exfalso. apply nth_error_None in E. unfold len in *. lia.
  - intros Hsel. simpl. rewrite (handleKeyDown_shown toString _ _ Hshown).
    rewrite Hsel. simpl. split; reflexivity.
Qed.

Lemma sampleState_reachable : reachable plainToString sampleState.
Proof. apply reachable_steps. constructor. Defined.

Lemma C7_keyboard_cursor_witness :
  panelShown sampleState = true
  /\ cursorInRange sampleState
  /\ selectedIndex (press plainToString ArrowDown 3 sampleState) = 2
  /\ selectedIndex (press plainToString ArrowDown 7 sampleState) = 2.
Proof.
  pose proof (C7_keyboard_cursor plainToString sampleState
                sampleState_reachable eq_refl) as H.
  destruct H as (Hrange & _ & _ & _ & Hpress & _).
  split; [reflexivity|]. split; [exact Hrange|]. split.
  - apply (Hpress eq_refl 3%nat). vm_compute. lia.
  - apply (Hpress eq_refl 7%nat). vm_compute. lia.
Defined.

(** C9.  With the panel shown, Escape closes it, and so does a mouse
    press outside the component; the text, the suggestion list and the
    cursor stay as they were and nothing is reported to the parent. *)
Theorem C9_escape_and_click_outside (toString : any -> string) (st : State) :
  panelShown st = true ->
  (forall ev, ev = KeyDown Escape \/ ev = MouseDown false ->
     let st' := fst (step toString st ev) in
     isOpen st' = false
     /\ panelShown st' = false
     /\ value st' = value st
     /\ suggestions st' = suggestions st
     /\ selectedIndex st' = selectedIndex st
     /\ snd (step toString st ev) = []).
Proof.
  intros Hshown ev [-> | ->]; simpl.
  - rewrite (handleKeyDown_shown toString _ _ Hshown). simpl. repeat split.
  - repeat split.
Qed.

Lemma C9_escape_and_click_outside_witness :
  panelShown sampleState = true
  /\ isOpen (fst (step plainToString sampleState (KeyDown Escape))) = false
  /\ value (fst (step plainToString sampleState (MouseDown false))) = "Pa".
Proof.
  pose proof (C9_escape_and_click_outside plainToString sampleState eq_refl) as H.
  split; [reflexivity|]. split.
  - apply (H (KeyDown Escape)). left. reflexivity.
  - destruct (H (MouseDown false) (or_intror eq_refl)) as (_ & _ & Hvalue & _).
    rewrite Hvalue. reflexivity.
Defined.

(** C10.  When a search completes, the suggestion list becomes the
    returned results, the cursor becomes -1, and the panel is open
    exactly when the results are not empty; the text is not touched. *)
Theorem C10_query_completed
    (toString : any -> string) (st : State) (results : list CitySuggestion) :
  let st' := fst (step toString st (QueryCompleted results)) in
  suggestions st' = results
  /\ selectedIndex st' = -1
  /\ isOpen st' = negb (List.length results =? 0)%nat
  /\ (isOpen st' = true <-> results <> [])
  /\ value st' = value st
  /\ snd (step toString st (QueryCompleted results)) = [].
Proof.
  simpl. repeat split; try reflexivity.
  - destruct results; simpl; [discriminate | congruence].
  - destruct results; simpl; [congruence | reflexivity].
Qed.

End CityAutocompleteSpec.


(* ===================================================================== *)
(** * More on the forecast aggregator *)
(* ===================================================================== *)

Module ForecastGrouping.
Import JS JSFacts Forecast ForecastSpec.
Local Open Scope list_scope.

(** All the points held by an object of buckets, bucket after bucket. *)
Definition pointsOf (o : object (list ForecastItem)) : list ForecastItem :=
  List.concat (map snd o).

Lemma Permutation_concat {A : Type} (xss yss : list (list A)) :
  Permutation xss yss -> Permutation (List.concat xss) (List.concat yss).
Proof.
  induction 1 as [|xs xss yss Hp IH|xs ys xss|xss yss zss H1 IH1 H2 IH2]; simpl.
  - constructor.
  - now apply Permutation_app_head.
  - rewrite !app_assoc. apply Permutation_app_tail, Permutation_app_comm.
  - etransitivity; eassumption.
Qed.

Lemma set_absent {V : Type} (o : object V) k v :
  get o k = None -> set o k v = o ++ [(k, v)].
Proof.
  induction o as [|[k' v'] o IH]; simpl; [reflexivity|].
  destruct (String.eqb k' k); [discriminate|].
  intros H. now rewrite IH.
Qed.

Lemma get_app_absent {V : Type} (o : object V) k v :
  get o k = None -> get (o ++ [(k, v)]) k = Some v.
Proof.
  induction o as [|[k' v'] o IH]; simpl.
  - now rewrite String.eqb_refl.
  - destruct (String.eqb k' k); [discriminate | exact IH].
Qed.

Lemma pointsOf_push o k item arr :
  get o k = Some arr ->
  Permutation (pointsOf (modify o k (fun arr => arr ++ [item]))) (item :: pointsOf o).
Proof.
  unfold pointsOf. induction o as [|[k' arr'] o IH]; simpl; [discriminate|].
  destruct (String.eqb k' k); simpl.
  - intros _. rewrite <- app_assoc. simpl.
    rewrite <- Permutation_middle. reflexivity.
  - intros H. rewrite (IH H). symmetry. apply Permutation_middle.
Qed.

Lemma pointsOf_groupStep acc item :
  Permutation (pointsOf (groupStep acc item)) (item :: pointsOf acc).
Proof.
  unfold groupStep. destruct (get acc (dateKeyOf item)) as [arr|] eqn:E.
  - now apply pointsOf_push with (arr := arr).
  - rewrite (set_absent _ _ _ E).
    rewrite (pointsOf_push _ _ _ []).
    + apply perm_skip. unfold pointsOf. rewrite map_app, concat_app. simpl.
      now rewrite app_nil_r.
    + now apply get_app_absent.
Qed.

Lemma pointsOf_fold items : forall acc,
  Permutation (pointsOf (fold_left groupStep items acc)) (pointsOf acc ++ items).
Proof.
  induction items as [|item items IH]; intros acc; simpl.
  - now rewrite app_nil_r.
  - rewrite IH, pointsOf_groupStep. simpl. apply Permutation_middle.
Qed.

Lemma StronglySorted_app_inv {A : Type} (R : A -> A -> Prop) xs ys :
  StronglySorted R (xs ++ ys) ->
  forall x y, In x xs -> In y ys -> R x y.
Proof.
  induction xs as [|z xs IH]; simpl; intros H x y Hx Hy; [contradiction|].
  apply StronglySorted_inv in H. destruct H as [Hs Hall].
  destruct Hx as [<-|Hx].
  - rewrite Forall_forall in Hall. apply Hall, in_or_app. now right.
  - now apply IH.
Qed.

Lemma sorted_entries_sorted items :
  StronglySorted (fun a b : string * list ForecastItem => before (fst a) (fst b))
    (sort byDateKey (groupedByDate items)).
Proof. apply (sort_sorted (groupedByDate items)), grouped_NoDup. Qed.

(** The reducer splits the input by date key: no point is lost or
    duplicated, there is one entry per key, and each entry holds the
    points of its key, in the order of the input, and at least one. *)
Lemma grouped_by_key (items : list ForecastItem) :
  Permutation (pointsOf (groupedByDate items)) items
  /\ NoDup (keys (groupedByDate items))
  /\ (forall k arr, In (k, arr) (groupedByDate items) ->
        arr = itemsOn k items /\ arr <> [])
  /\ (forall item, In item items ->
        In (dateKeyOf item, itemsOn (dateKeyOf item) items) (groupedByDate items)).
Proof.
  split; [apply (pointsOf_fold items [])|].
  split; [apply grouped_NoDup|].
  split; [apply grouped_entry|].
  intros item Hitem.
  assert (Hk : In (dateKeyOf item) (keys (groupedByDate items))).
  { apply grouped_keys. now apply in_map. }
  unfold keys in Hk. apply in_map_iff in Hk. destruct Hk as ([k arr] & Hfst & Hin).
  simpl in Hfst. subst k.
  destruct (grouped_entry _ _ _ Hin) as [-> _]. exact Hin.
Qed.

(** With at most five date keys the cap removes nothing: the buckets
    together hold every point of the input once. *)
Lemma few_keys_keep_every_point (e : Env) (items : list ForecastItem) :
  (distinctDates items <= 5)%nat ->
  Permutation (List.concat (map allItems (dailyForecasts e items))) items.
Proof.
  intros Hfew. rewrite dailyForecasts_eq.
  rewrite firstn_all2.
  - rewrite map_map.
    assert (Hsnd : forall l : list (string * list ForecastItem),
               map (fun x => allItems (toDaily e x)) l = map snd l).
    { intros l. apply map_ext. now intros [k arr]. }
    rewrite Hsnd.
    rewrite (Permutation_concat _ _
               (Permutation_map snd (sort_perm byDateKey (groupedByDate items)))).
    apply (pointsOf_fold items []).
  - rewrite length_map, (Permutation_length (sort_perm byDateKey _)), grouped_length.
    exact Hfew.
Qed.

(** The cap keeps the first five keys of the sorted entries: a point
    whose key has no bucket has a key that [localeCompare] puts after
    the key of every bucket, and then there are five buckets. *)
Lemma dropped_key_is_after (e : Env) (items : list ForecastItem)
    (item : ForecastItem) :
  In item items ->
  (forall b, In b (dailyForecasts e items) -> date b <> dateKeyOf item) ->
  List.length (dailyForecasts e items) = 5%nat
  /\ forall b, In b (dailyForecasts e items) -> before (date b) (dateKeyOf item).
Proof.
  intros Hitem Hnone.
  set (sorted := sort byDateKey (groupedByDate items)) in *.
  assert (Hdaily : dailyForecasts e items = map (toDaily e) (firstn 5 sorted)).
  { rewrite dailyForecasts_eq. fold sorted. apply firstn_map. }
  assert (Hentry : In (dateKeyOf item, itemsOn (dateKeyOf item) items) sorted).
  { apply (Permutation_in _ (Permutation_sym (sort_perm byDateKey _))).
    now apply grouped_by_key. }
  rewrite <- (firstn_skipn 5 sorted) in Hentry.
  apply in_app_or in Hentry. destruct Hentry as [Hkept|Hdropped].
  - exfalso. apply (Hnone (toDaily e (dateKeyOf item, itemsOn (dateKeyOf item) items))).
    + rewrite Hdaily. now apply in_map.
    + reflexivity.
  - split.
    + rewrite Hdaily, length_map, length_firstn.
      destruct (Nat.le_gt_cases 5 (List.length sorted)) as [Hle|Hlt]; [lia|].
      rewrite skipn_all2 in Hdropped by lia. contradiction.
    + intros b Hb. rewrite Hdaily in Hb. apply in_map_iff in Hb.
      destruct Hb as ([k arr] & <- & Hb). simpl.
      pose proof (sorted_entries_sorted items) as Hsorted. fold sorted in Hsorted.
      rewrite <- (firstn_skipn 5 sorted) in Hsorted.
      exact (StronglySorted_app_inv _ _ _ Hsorted _ _ Hb Hdropped).
Qed.

End ForecastGrouping.

(* ===================================================================== *)
(** * Dates and their keys *)
(* ===================================================================== *)

Module CalendarFacts.
Import JS JSFacts Forecast ForecastView.

(** ** Strings *)

Lemma append_assoc (a b c : string) : ((a ++ b) ++ c = a ++ (b ++ c))%string.
Proof. induction a as [|x a IH]; simpl; [reflexivity | now rewrite IH]. Qed.

Lemma append_nil_r (a : string) : (a ++ "" = a)%string.
Proof. induction a as [|x a IH]; simpl; [reflexivity | now rewrite IH]. Qed.

Lemma length_append (a b : string) :
  String.length (a ++ b) = (String.length a + String.length b)%nat.
Proof. induction a as [|x a IH]; simpl; [reflexivity | now rewrite IH]. Qed.

(** [free sep s]: the separator does not occur in [s]. *)
Fixpoint free (sep : ascii) (s : string) : bool :=
  match s with
  | EmptyString => true
  | String c rest => negb (Ascii.eqb c sep) && free sep rest
  end.

Lemma free_append sep a b : free sep (a ++ b) = free sep a && free sep b.
Proof.
  induction a as [|x a IH]; simpl; [reflexivity|].
  now rewrite IH, andb_assoc.
Qed.

(** Splitting walks over a piece without separator. *)
Lemma split_go_free sep s : forall cur rest,
  free sep s = true ->
  split_go sep cur (s ++ rest) = split_go sep (cur ++ s) rest.
Proof.
  induction s as [|c s IH]; simpl; intros cur rest H.
  - now rewrite append_nil_r.
  - apply andb_true_iff in H. destruct H as [Hc Hs].
    apply negb_true_iff in Hc. rewrite Hc, (IH _ _ Hs), append_assoc. reflexivity.
Qed.

Lemma split_go_sep sep cur rest :
  split_go sep cur (String sep rest) = cur :: split_go sep EmptyString rest.
Proof. simpl. now rewrite Ascii.eqb_refl. Qed.

Lemma split_go_last sep s cur :
  free sep s = true -> split_go sep cur s = [(cur ++ s)%string].
Proof.
  intros H. rewrite <- (append_nil_r s) at 1.
  now rewrite (split_go_free sep s cur EmptyString H).
Qed.

(** A first piece, a separator, and the rest. *)
Lemma split_cons sep a rest :
  free sep a = true ->
  split sep (a ++ String sep rest) = a :: split sep rest.
Proof.
  intros H. unfold split. now rewrite (split_go_free sep a _ _ H), split_go_sep.
Qed.

Lemma split_last sep a : free sep a = true -> split sep a = [a].
Proof. intros H. unfold split. now rewrite (split_go_last sep a _ H). Qed.

(** ** Digits *)

Lemma digit_cases (n : Z) :
  exists k, (k < 10)%nat /\ n mod 10 = Z.of_nat k /\ digit n = ascii_of_nat (48 + k).
Proof.
  exists (Z.to_nat (n mod 10)).
  pose proof (Z.mod_pos_bound n 10 ltac:(lia)) as Hb.
  split; [lia|]. split; [lia | reflexivity].
Qed.

Ltac by_digit n :=
  let k := fresh "k" in
  let Hk := fresh "Hk" in
  let Hmod := fresh "Hmod" in
  let Hd := fresh "Hd" in
  destruct (digit_cases n) as (k & Hk & Hmod & Hd);
  rewrite Hd; rewrite ?Hmod;
  do 10 (destruct k as [|k]; [vm_compute; reflexivity|]);
  exfalso; lia.

Lemma digitValue_digit n : digitValue (digit n) = Some (n mod 10).
Proof. by_digit n. Qed.

(** A digit is none of the separators the program splits at. *)
Lemma digit_not_sep n sep :
  digitValue sep = None -> Ascii.eqb (digit n) sep = false.
Proof.
  intros H. destruct (Ascii.eqb_spec (digit n) sep) as [E|]; [|reflexivity].
  rewrite <- E, digitValue_digit in H. discriminate.
Qed.

Lemma pad_free w sep : forall n,
  digitValue sep = None -> free sep (pad w n) = true.
Proof.
  induction w as [|w IH]; intros n H; cbn [pad]; [reflexivity|].
  rewrite free_append, (IH _ H). cbn [free].
  now rewrite (digit_not_sep _ _ H).
Qed.

Lemma length_pad w : forall n, String.length (pad w n) = w.
Proof.
  induction w as [|w IH]; intros n; cbn [pad]; [reflexivity|].
  rewrite length_append, IH. cbn [String.length]. lia.
Qed.

Lemma parseDigits_append a : forall acc b,
  parseDigits acc (a ++ b)
  = match parseDigits acc a with
    | Some x => parseDigits x b
    | None => None
    end.
Proof.
  induction a as [|c a IH]; simpl; intros acc b; [reflexivity|].
  destruct (digitValue c); [apply IH | reflexivity].
Qed.

(** Reading back the [w] digits written by [pad]. *)
Lemma parseDigits_pad w : forall acc n,
  parseDigits acc (pad w n) = Some (acc * 10 ^ Z.of_nat w + n mod 10 ^ Z.of_nat w).
Proof.
  induction w as [|w IH]; intros acc n.
  - cbn [pad parseDigits]. change (10 ^ Z.of_nat 0) with 1.
    rewrite Z.mod_1_r. f_equal. lia.
  - cbn [pad]. rewrite parseDigits_append, IH. cbn [parseDigits].
    rewrite digitValue_digit. f_equal.
    rewrite Nat2Z.inj_succ, Z.pow_succ_r by lia.
    rewrite (Z.rem_mul_r n 10 (10 ^ Z.of_nat w)) by lia.
    lia.
Qed.

(** ** The calendar *)

(** The day number of a date is the day number it was made from, and
    the month and the day of the month are in range. *)
Lemma daysFromCivil_civilFromDays (days : Z) :
  let '(y, m, d) := civilFromDays days in
  daysFromCivil y m d = days /\ 1 <= m <= 12 /\ 1 <= d <= 31.
Proof.
  unfold civilFromDays, daysFromCivil.
  set (z := days + 719468).
  set (era := z / 146097).
  set (doe := z - era * 146097).
  assert (Hdoe : 0 <= doe <= 146096)
    by (subst doe era; Z.to_euclidean_division_equations; lia).
  set (yoe := (doe - doe / 1460 + doe / 36524 - doe / 146096) / 365).
  set (doy := doe - (365 * yoe + yoe / 4 - yoe / 100)).
  assert (Hy : 0 <= yoe <= 399 /\ 0 <= doy <= 365)
    by (subst yoe doy; Z.to_euclidean_division_equations; lia).
  set (mp := (5 * doy + 2) / 153).
  assert (Hmp : 0 <= mp <= 11) by (subst mp; Z.to_euclidean_division_equations; lia).
  set (d := doy - (153 * mp + 2) / 5 + 1).
  assert (Hd : 1 <= d <= 31) by (subst d mp; Z.to_euclidean_division_equations; lia).
  assert (Ez : z = days + 719468) by reflexivity.
  assert (Edoe : doe = z - era * 146097) by reflexivity.
  assert (Edoy : doy = doe - (365 * yoe + yoe / 4 - yoe / 100)) by reflexivity.
  assert (Ed : d = doy - (153 * mp + 2) / 5 + 1) by reflexivity.
  clearbody d mp doy yoe doe era z.
  destruct (Z.ltb_spec mp 10) as [Hlt|Hge].
  - destruct (Z.leb_spec (mp + 3) 2) as [H1|H1]; [lia|].
    destruct (Z.ltb_spec 2 (mp + 3)) as [H2|H2]; [|lia].
    replace (yoe + era * 400 + 0 - 0) with (yoe + era * 400) by lia.
    replace ((yoe + era * 400) / 400) with era
      by (apply Z.div_unique with (r := yoe); lia).
    replace (yoe + era * 400 - era * 400) with yoe by lia.
    replace (mp + 3 - 3) with mp by lia.
    split; lia.
  - destruct (Z.leb_spec (mp - 9) 2) as [H1|H1]; [|lia].
    destruct (Z.ltb_spec 2 (mp - 9)) as [H2|H2]; [lia|].
    replace (yoe + era * 400 + 1 - 1) with (yoe + era * 400) by lia.
    replace ((yoe + era * 400) / 400) with era
      by (apply Z.div_unique with (r := yoe); lia).
    replace (yoe + era * 400 - era * 400) with yoe by lia.
    replace (mp - 9 + 9) with mp by lia.
    split; lia.
Qed.

(** A later day of the month is as many days later. *)
Lemma daysFromCivil_plus y m d k :
  daysFromCivil y m (d + k) = daysFromCivil y m d + k.
Proof. unfold daysFromCivil. lia. Qed.

(** ** Local time *)

Lemma LocalTime_UTC zone t : LocalTime zone (UTC zone t) = t.
Proof. unfold LocalTime, UTC. lia. Qed.

Lemma Day_midnight k : Day (k * msPerDay) = k.
Proof. unfold Day, msPerDay. now rewrite Z.div_mul. Qed.

Lemma TimeWithinDay_midnight k : TimeWithinDay (k * msPerDay) = 0.
Proof. unfold TimeWithinDay, msPerDay. now rewrite Z.mod_mul. Qed.

Lemma TimeWithinDay_range t : 0 <= TimeWithinDay t < msPerDay.
Proof. unfold TimeWithinDay, msPerDay. apply Z.mod_pos_bound. lia. Qed.

Lemma Day_plus k r : 0 <= r < msPerDay -> Day (k * msPerDay + r) = k.
Proof.
  unfold Day, msPerDay. intros H. symmetry.
  apply Z.div_unique with (r := r); lia.
Qed.

Lemma UTC_midnight_eqb zone a b :
  (UTC zone (a * msPerDay) =? UTC zone (b * msPerDay)) = (a =? b).
Proof.
  unfold UTC, msPerDay.
  destruct (Z.eqb_spec a b) as [->|Hne]; [apply Z.eqb_refl|].
  apply Z.eqb_neq. lia.
Qed.

(** [setHours(0, 0, 0, 0)] gives the local midnight of the local day. *)
Lemma setHours0_local zone t :
  setHours0 zone t = UTC zone (Day (LocalTime zone t) * msPerDay).
Proof. reflexivity. Qed.

(** [setDate(getDate() + 1)] moves to the same time of the next local
    day. *)
Lemma setDate_next zone t :
  setDate zone t (getDate zone t + 1)
  = UTC zone ((Day (LocalTime zone t) + 1) * msPerDay + TimeWithinDay (LocalTime zone t)).
Proof.
  unfold setDate, getDate.
  pose proof (daysFromCivil_civilFromDays (Day (LocalTime zone t))) as H.
  destruct (civilFromDays (Day (LocalTime zone t))) as [[y m] d].
  destruct H as [H _]. now rewrite daysFromCivil_plus, H.
Qed.

Lemma Day_setDate_next zone t :
  Day (LocalTime zone (setDate zone t (getDate zone t + 1)))
  = Day (LocalTime zone t) + 1.
Proof.
  rewrite setDate_next, LocalTime_UTC.
  apply Day_plus, TimeWithinDay_range.
Qed.

(** ** Date keys *)

(** The date part of [toISOString] for a day number. *)
Definition isoDate (days : Z) : string :=
  let '(y, m, d) := civilFromDays days in
  isoYear y ++ "-" ++ pad 2 m ++ "-" ++ pad 2 d.

Lemma isoYear_free_T y : free "T" (isoYear y) = true.
Proof.
  unfold isoYear. destruct ((0 <=? y) && (y <=? 9999)).
  - now apply pad_free.
  - rewrite free_append, (pad_free 6 "T" _ eq_refl). now destruct (y <? 0).
Qed.

Lemma dateKeyOf_isoDate item : dateKeyOf item = isoDate (Day (dt item * 1000)).
Proof.
  unfold dateKeyOf, isoDate, toISOString.
  destruct (civilFromDays (Day (dt item * 1000))) as [[y m] d].
  set (rest := (pad 2 (TimeWithinDay (dt item * 1000) / msPerHour) ++ _)%string).
  change (isoYear y ++ "-" ++ pad 2 m ++ "-" ++ pad 2 d ++ "T" ++ rest)%string
    with (isoYear y ++ "-" ++ pad 2 m ++ "-" ++ pad 2 d ++ String "T" rest)%string.
  replace (isoYear y ++ "-" ++ pad 2 m ++ "-" ++ pad 2 d ++ String "T" rest)%string
    with ((isoYear y ++ "-" ++ pad 2 m ++ "-" ++ pad 2 d) ++ String "T" rest)%string
    by (now rewrite !append_assoc).
  rewrite split_cons; [reflexivity|].
  rewrite !free_append, isoYear_free_T, !(pad_free 2 "T" _ eq_refl). reflexivity.
Qed.

Lemma digit_not_plus n : digit n <> "+"%char.
Proof.
  intros E. pose proof (digit_not_sep n "+" eq_refl) as H.
  rewrite E in H. discriminate.
Qed.

(** [new Date(s)] on a string of three pieces whose first does not
    begin with a plus sign. *)
Lemma parseDate_pieces s c y m d :
  c <> "+"%char ->
  split "-" s = [String c y; m; d] ->
  parseDate s
  = if (String.length (String c y) =? 4)%nat
    then parseMonthDay (parseDigits 0 (String c y)) m d
    else None.
Proof.
  intros Hc Hs. unfold parseDate. rewrite Hs.
  destruct c as [[] [] [] [] [] [] [] []]; try reflexivity.
  contradiction Hc. reflexivity.
Qed.

(** The key of a day in the years 0000 to 9999 reads back as the UTC
    midnight of that day. *)
Lemma parseDate_isoDate days :
  (let '(y, _, _) := civilFromDays days in 0 <= y <= 9999) ->
  parseDate (isoDate days) = Some (days * msPerDay)
  /\ String.length (isoDate days) = 10%nat.
Proof.
  unfold isoDate.
  pose proof (daysFromCivil_civilFromDays days) as H.
  destruct (civilFromDays days) as [[y m] d]. destruct H as (Hdays & Hm & Hd).
  intros Hy.
  assert (Hyear : isoYear y = pad 4 y).
  { unfold isoYear.
    destruct (Z.leb_spec 0 y); [|lia]. destruct (Z.leb_spec y 9999); [|lia]. reflexivity. }
  rewrite Hyear. split.
  - assert (Hsplit : split "-" (pad 4 y ++ "-" ++ pad 2 m ++ "-" ++ pad 2 d)
                     = [pad 4 y; pad 2 m; pad 2 d]).
    { change (pad 4 y ++ "-" ++ pad 2 m ++ "-" ++ pad 2 d)%string
        with (pad 4 y ++ String "-" (pad 2 m ++ String "-" (pad 2 d)))%string.
      rewrite split_cons by now apply pad_free.
      rewrite split_cons by now apply pad_free.
      rewrite split_last by now apply pad_free.
      reflexivity. }
    assert (Hfirst : exists c rest, pad 4 y = String c rest /\ c <> "+"%char).
    { cbn [pad append]. eexists. eexists. split; [reflexivity | apply digit_not_plus]. }
    destruct Hfirst as (c & rest & Hpad & Hc).
    pose proof (parseDate_pieces (pad 4 y ++ "-" ++ pad 2 m ++ "-" ++ pad 2 d)
                  c rest (pad 2 m) (pad 2 d) Hc) as Hparse.
    rewrite <- Hpad in Hparse. rewrite (Hparse Hsplit).
    rewrite length_pad. cbn [Nat.eqb].
    unfold parseMonthDay. rewrite !length_pad. cbn [Nat.eqb andb].
    rewrite !parseDigits_pad. unfold makeDate.
    change (10 ^ Z.of_nat 4) with 10000. change (10 ^ Z.of_nat 2) with 100.
    rewrite !Z.mod_small by lia. cbn [Z.mul Z.add].
    destruct (Z.leb_spec 1 m); [|lia]. destruct (Z.leb_spec m 12); [|lia].
    destruct (Z.leb_spec 1 d); [|lia]. destruct (Z.leb_spec d 31); [|lia].
    cbn [andb]. now rewrite Hdays.
  - rewrite !length_append, !length_pad. reflexivity.
Qed.

(** ** Day names *)

(** [toDateString] only depends on the local day. *)
Definition dateStringOfDay (days : Z) : string :=
  let '(y, m, d) := civilFromDays days in
  weekdayShort ((days + 4) mod 7) ++ " " ++ monthShort m ++ " " ++ pad 2 d ++ " "
    ++ (if y <? 0 then "-" ++ pad 6 (- y) else if y <=? 9999 then pad 4 y else numeral y).

Lemma toDateString_day zone t :
  toDateString zone t = dateStringOfDay (Day (LocalTime zone t)).
Proof. reflexivity. Qed.

Lemma weekdayShort_inj w1 w2 r1 r2 :
  0 <= w1 < 7 -> 0 <= w2 < 7 ->
  (weekdayShort w1 ++ r1 = weekdayShort w2 ++ r2)%string -> w1 = w2.
Proof.
  intros H1 H2.
  assert (C1 : w1 = 0 \/ w1 = 1 \/ w1 = 2 \/ w1 = 3 \/ w1 = 4 \/ w1 = 5 \/ w1 = 6) by lia.
  assert (C2 : w2 = 0 \/ w2 = 1 \/ w2 = 2 \/ w2 = 3 \/ w2 = 4 \/ w2 = 5 \/ w2 = 6) by lia.
  clear H1 H2.
  repeat (destruct C1 as [->|C1] || subst w1);
    repeat (destruct C2 as [->|C2] || subst w2);
    cbn; intros E; try reflexivity; discriminate E.
Qed.

(** Two days with the same [toDateString] fall on the same day of the
    week. *)
Lemma dateStringOfDay_weekday d1 d2 :
  dateStringOfDay d1 = dateStringOfDay d2 -> (d1 + 4) mod 7 = (d2 + 4) mod 7.
Proof.
  unfold dateStringOfDay.
  destruct (civilFromDays d1) as [[y1 m1] n1], (civilFromDays d2) as [[y2 m2] n2].
  apply weekdayShort_inj; apply Z.mod_pos_bound; lia.
Qed.

End CalendarFacts.

(* ===================================================================== *)
(** * Labels and cards of the forecast *)
(* ===================================================================== *)

Module ForecastLabels.
Import JS JSFacts Forecast ForecastView ForecastSpec ForecastGrouping CalendarFacts.
Local Open Scope list_scope.

(** The years whose date keys have the form YYYY-MM-DD. *)
Definition fourDigitYear (item : ForecastItem) : Prop :=
  0 <= getUTCFullYear (dt item * 1000) <= 9999.

(** The UTC day of a point and the local day of the clock. *)
Definition utcDay (item : ForecastItem) : Z := Day (dt item * 1000).
Definition localToday (e : Env) : Z := Day (LocalTime (tz e) (now e)).

(** The label by the local day [F] that the UTC midnight of the
    bucket's date falls on. *)
Definition labelOfLocalDay (e : Env) (F : Z) (date : Z) : string :=
  if F =? localToday e then "Today"
  else if F =? localToday e + 1 then "Tomorrow"
  else toLocaleDateString_wmd (tz e) date.

(** [new Date(key)] of the key of a point is the UTC midnight of the
    point's day. *)
Lemma dateKeyOf_parse (item : ForecastItem) :
  fourDigitYear item -> parseDate (dateKeyOf item) = Some (utcDay item * msPerDay).
Proof.
  unfold fourDigitYear, getUTCFullYear, utcDay. intros Hy.
  rewrite dateKeyOf_isoDate. apply parseDate_isoDate.
  destruct (civilFromDays (Day (dt item * 1000))) as [[y m] d]. exact Hy.
Qed.

(** X4.  The key of a point in the years 0000 to 9999 has ten
    characters, and [new Date(key)] is the UTC midnight of the point's
    day: grouping and labelling agree on the day. *)
Theorem date_key_round_trip (item : ForecastItem) :
  fourDigitYear item ->
  parseDate (dateKeyOf item) = Some (utcDay item * msPerDay)
  /\ String.length (dateKeyOf item) = 10%nat.
Proof.
  unfold fourDigitYear, getUTCFullYear, utcDay. intros Hy.
  rewrite dateKeyOf_isoDate. apply parseDate_isoDate.
  destruct (civilFromDays (Day (dt item * 1000))) as [[y m] d]. exact Hy.
Qed.

Lemma date_key_round_trip_witness :
  fourDigitYear (point 1705316400 4)
  /\ parseDate (dateKeyOf (point 1705316400 4))
     = Some (utcDay (point 1705316400 4) * msPerDay)
  /\ String.length (dateKeyOf (point 1705316400 4)) = 10%nat.
Proof.
  assert (H : fourDigitYear (point 1705316400 4)) by (vm_compute; split; intros E; discriminate E).
  split; [exact H|]. exact (date_key_round_trip _ H).
Defined.

Lemma tomorrow_of_today zone t :
  setDate zone (setHours0 zone t) (getDate zone (setHours0 zone t) + 1)
  = UTC zone ((Day (LocalTime zone t) + 1) * msPerDay).
Proof.
  rewrite setDate_next, setHours0_local, LocalTime_UTC.
  now rewrite Day_midnight, TimeWithinDay_midnight, Z.add_0_r.
Qed.

(** The label of the bucket of a point, in any zone. *)
Lemma displayDateOf_key (e : Env) (item : ForecastItem) :
  fourDigitYear item ->
  displayDateOf e (dateKeyOf item)
  = labelOfLocalDay e (Day (LocalTime (tz e) (utcDay item * msPerDay)))
      (utcDay item * msPerDay).
Proof.
  intros Hy. unfold displayDateOf, labelOfLocalDay, localToday.
  rewrite (dateKeyOf_parse item Hy).
  rewrite tomorrow_of_today, !setHours0_local, !UTC_midnight_eqb. reflexivity.
Qed.

Lemma bucket_of_point (e : Env) items b item :
  In b (dailyForecasts e items) -> In item (allItems b) ->
  date b = dateKeyOf item /\ displayDate b = displayDateOf e (date b).
Proof.
  intros Hb Hitem.
  destruct (dailyForecasts_In _ _ _ Hb) as (k & arr & -> & Hentry).
  destruct (grouped_entry _ _ _ Hentry) as [Harr _]. simpl in *.
  split; [|reflexivity].
  rewrite Harr in Hitem. apply filter_In in Hitem. destruct Hitem as [_ Hk].
  symmetry. now apply String.eqb_eq.
Qed.

(** X5.  At and east of Greenwich (up to a day ahead) the labels are
    by the date of the bucket: the bucket of the local current date is
    labelled Today, the bucket of the date after it Tomorrow, and every
    other bucket carries its weekday, month and day. *)
Theorem labels_at_and_east_of_utc (e : Env) (items : list ForecastItem)
    (b : DailyForecast) (item : ForecastItem) :
  0 <= tz e < 1440 ->
  In b (dailyForecasts e items) ->
  In item (allItems b) ->
  fourDigitYear item ->
  displayDate b
  = if utcDay item =? localToday e then "Today"
    else if utcDay item =? localToday e + 1 then "Tomorrow"
    else toLocaleDateString_wmd (tz e) (utcDay item * msPerDay).
Proof.
  intros Hzone Hb Hitem Hy.
  destruct (bucket_of_point _ _ _ _ Hb Hitem) as [Hdate ->].
  rewrite Hdate, (displayDateOf_key e item Hy). unfold labelOfLocalDay.
  assert (HF : Day (LocalTime (tz e) (utcDay item * msPerDay)) = utcDay item).
  { unfold LocalTime. apply Day_plus. unfold msPerMinute, msPerDay. lia. }
  now rewrite HF.
Qed.

Lemma labels_at_and_east_of_utc_witness :
  0 <= tz sampleEnv < 1440
  /\ In sampleDay (dailyForecasts sampleEnv sampleItems)
  /\ fourDigitYear (point 1705316400 4)
  /\ displayDate sampleDay = "Today".
Proof.
  assert (Hzone : 0 <= tz sampleEnv < 1440) by (simpl; lia).
  assert (Hy : fourDigitYear (point 1705316400 4)) by (vm_compute; split; intros E; discriminate E).
  split; [exact Hzone|]. split; [exact sampleDay_In|]. split; [exact Hy|].
  rewrite (labels_at_and_east_of_utc sampleEnv sampleItems sampleDay (point 1705316400 4)
             Hzone sampleDay_In (or_introl eq_refl) Hy).
  reflexivity.
Defined.

(** X6.  West of Greenwich (up to a day behind) the labels are a day
    off: the bucket labelled Today is the one of the date after the
    local current date, the bucket labelled Tomorrow the one two dates
    after it, and the bucket of the local current date carries a
    weekday. *)
Theorem labels_west_of_utc (e : Env) (items : list ForecastItem)
    (b : DailyForecast) (item : ForecastItem) :
  -1440 < tz e < 0 ->
  In b (dailyForecasts e items) ->
  In item (allItems b) ->
  fourDigitYear item ->
  displayDate b
  = if utcDay item =? localToday e + 1 then "Today"
    else if utcDay item =? localToday e + 2 then "Tomorrow"
    else toLocaleDateString_wmd (tz e) (utcDay item * msPerDay).
Proof.
  intros Hzone Hb Hitem Hy.
  destruct (bucket_of_point _ _ _ _ Hb Hitem) as [Hdate ->].
  rewrite Hdate, (displayDateOf_key e item Hy). unfold labelOfLocalDay.
  assert (HF : Day (LocalTime (tz e) (utcDay item * msPerDay)) = utcDay item - 1).
  { unfold LocalTime.
    replace (utcDay item * msPerDay + tz e * msPerMinute)
      with ((utcDay item - 1) * msPerDay + (msPerDay + tz e * msPerMinute)) by lia.
    apply Day_plus. unfold msPerMinute, msPerDay. lia. }
  rewrite HF.
  destruct (Z.eqb_spec (utcDay item - 1) (localToday e)),
           (Z.eqb_spec (utcDay item) (localToday e + 1)); try lia; try reflexivity.
  destruct (Z.eqb_spec (utcDay item - 1) (localToday e + 1)),
           (Z.eqb_spec (utcDay item) (localToday e + 2)); try lia; reflexivity.
Qed.

Lemma labels_west_of_utc_witness :
  -1440 < tz westEnv < 0
  /\ In (toDaily westEnv ("2024-01-16", [point 1705428000 7]))
        (dailyForecasts westEnv westItems)
  /\ fourDigitYear (point 1705428000 7)
  /\ displayDate (toDaily westEnv ("2024-01-16", [point 1705428000 7])) = "Today"
  /\ utcDay (point 1705428000 7) = localToday westEnv + 1.
Proof.
  assert (Hzone : -1440 < tz westEnv < 0) by (simpl; lia).
  assert (Hb : In (toDaily westEnv ("2024-01-16", [point 1705428000 7]))
                 (dailyForecasts westEnv westItems))
    by (vm_compute; right; left; reflexivity).
  assert (Hy : fourDigitYear (point 1705428000 7)) by (vm_compute; split; intros E; discriminate E).
  split; [exact Hzone|]. split; [exact Hb|]. split; [exact Hy|]. split.
  - rewrite (labels_west_of_utc westEnv westItems _ (point 1705428000 7)
               Hzone Hb (or_introl eq_refl) Hy).
    reflexivity.
  - reflexivity.
Defined.

(** X7.  The day name of a card of the hourly strip is by the local day
    of its timestamp, in every zone: Today on the local day of the
    clock, Tomorrow on the next, and the short weekday name two to six
    days ahead. *)
Theorem formatDay_names_the_local_day (e : Env) (timestamp : Z) :
  let F := Day (LocalTime (tz e) (timestamp * 1000)) in
  (F = localToday e -> formatDay e timestamp = "Today")
  /\ (F = localToday e + 1 -> formatDay e timestamp = "Tomorrow")
  /\ (2 <= F - localToday e <= 6 ->
      formatDay e timestamp = weekdayShort ((F + 4) mod 7)).
Proof.
  intros F. unfold formatDay, localToday.
  rewrite !toDateString_day, Day_setDate_next. fold F.
  set (L := Day (LocalTime (tz e) (now e))).
  assert (Hdiff : forall a c, a <> c -> -6 <= a - c <= 6 ->
            String.eqb (dateStringOfDay a) (dateStringOfDay c) = false).
  { intros a c Hne Hclose. apply String.eqb_neq. intros E.
    apply dateStringOfDay_weekday in E.
    Z.to_euclidean_division_equations. lia. }
  split; [|split].
  - intros ->. now rewrite String.eqb_refl.
  - intros ->. rewrite (Hdiff (L + 1) L) by lia. now rewrite String.eqb_refl.
  - intros Hahead.
    rewrite (Hdiff F L) by lia. rewrite (Hdiff F (L + 1)) by lia.
    reflexivity.
Qed.

Lemma formatDay_names_the_local_day_witness :
  Day (LocalTime (tz westEnv) (1705428000 * 1000)) = localToday westEnv + 1
  /\ formatDay westEnv 1705428000 = "Tomorrow".
Proof.
  assert (H : Day (LocalTime (tz westEnv) (1705428000 * 1000)) = localToday westEnv + 1)
    by reflexivity.
  split; [exact H|].
  exact (proj1 (proj2 (formatDay_names_the_local_day westEnv 1705428000)) H).
Defined.

(** The representative point of a bucket is one of its points. *)
Lemma pickForecast_In (e : Env) items p :
  pickForecast e items = Some p -> In p items.
Proof.
  unfold pickForecast. destruct (find (isNoon e) items) as [q|] eqn:Efind.
  - intros [= <-]. now apply find_some in Efind.
  - destruct (nth_error items (List.length items / 2)%nat) as [q|] eqn:Emid.
    + intros [= <-]. eapply nth_error_In; eassumption.
    + intros H. eapply nth_error_In; eassumption.
Qed.

Lemma representative_exists (e : Env) items b :
  In b (dailyForecasts e items) ->
  exists p, forecast b = Some p /\ In p (allItems b).
Proof.
  intros Hb.
  destruct (dailyForecasts_allItems _ _ _ Hb) as (_ & Hne & Hpick & _).
  destruct (forecast b) as [p|] eqn:E.
  - exists p. split; [reflexivity|]. eapply pickForecast_In. symmetry. eassumption.
  - exfalso. symmetry in Hpick. unfold pickForecast in Hpick.
    destruct (find (isNoon e) (allItems b)); [discriminate|].
    destruct (middle_exists _ Hne) as (p & Hp). rewrite Hp in Hpick. discriminate.
Qed.

(** X8.  The small date of a day's card never throws: every bucket has
    a representative, which is one of its own points.  For a point whose
    [dt_txt] has the provider's form (year, month and day between
    hyphens, then a space) it shows month/day; for an empty [dt_txt] it
    is empty.  The icon throws exactly when the representative has no
    weather condition. *)
Theorem day_card_fields (e : Env) (items : list ForecastItem) (b : DailyForecast) :
  In b (dailyForecasts e items) ->
  exists p,
    forecast b = Some p
    /\ In p (allItems b)
    /\ dateLine b = Ok (join "/" (tl (split "-" (hd EmptyString (split " " (dt_txt p))))))
    /\ (forall y m d rest,
          free "-" y = true -> free " " y = true ->
          free "-" m = true -> free " " m = true ->
          free "-" d = true -> free " " d = true ->
          dt_txt p = (y ++ "-" ++ m ++ "-" ++ d ++ " " ++ rest)%string ->
          dateLine b = Ok (m ++ "/" ++ d)%string)
    /\ (dt_txt p = EmptyString -> dateLine b = Ok EmptyString)
    /\ (iconUrl b = Throw TypeError <-> weather p = []).
Proof.
  intros Hb. destruct (representative_exists _ _ _ Hb) as (p & Hp & Hin).
  exists p. split; [exact Hp|]. split; [exact Hin|].
  unfold dateLine, iconUrl. rewrite Hp.
  split; [reflexivity|]. split; [|split].
  - intros y m d rest Hy1 Hy2 Hm1 Hm2 Hd1 Hd2 ->.
    change (y ++ "-" ++ m ++ "-" ++ d ++ " " ++ rest)%string
      with (y ++ "-" ++ m ++ "-" ++ d ++ String " " rest)%string.
    replace (y ++ "-" ++ m ++ "-" ++ d ++ String " " rest)%string
      with ((y ++ "-" ++ m ++ "-" ++ d) ++ String " " rest)%string
      by (now rewrite !append_assoc).
    rewrite split_cons
      by (rewrite !free_append, Hy2, Hm2, Hd2; reflexivity).
    cbn [hd].
    change (y ++ "-" ++ m ++ "-" ++ d)%string
      with (y ++ String "-" (m ++ String "-" d))%string.
    rewrite (split_cons "-" y _ Hy1), (split_cons "-" m _ Hm1), (split_last "-" d Hd1).
    reflexivity.
  - intros ->. reflexivity.
  - destruct (weather p); split; intros H; try reflexivity; discriminate H.
Qed.

Lemma day_card_fields_witness :
  In sampleDay (dailyForecasts sampleEnv sampleItems)
  /\ exists p, forecast sampleDay = Some p /\ In p (allItems sampleDay)
               /\ dateLine sampleDay = Ok EmptyString.
Proof.
  split; [exact sampleDay_In|].
  destruct (day_card_fields sampleEnv sampleItems sampleDay sampleDay_In)
    as (p & Hp & Hin & Hline & _).
  exists p. split; [exact Hp|]. split; [exact Hin|].
  rewrite Hline. injection Hp as <-. reflexivity.
Defined.

(** X9.  On the card of a day the low temperature shown is never above
    the high temperature shown, and both are whole numbers: the
    roundings of the lowest and of the highest [temp] of the bucket. *)
Theorem shown_low_is_at_most_shown_high (e : Env) (items : list ForecastItem)
    (b : DailyForecast) :
  In b (dailyForecasts e items) ->
  exists lo hi : Z,
    lowShown b = Finite (inject_Z lo)
    /\ highShown b = Finite (inject_Z hi)
    /\ lo <= hi.
Proof.
  intros Hb.
  destruct (dailyForecasts_allItems _ _ _ Hb) as (_ & Hne & _ & Hmin & Hmax).
  unfold lowShown, highShown. rewrite Hmin, Hmax.
  destruct (allItems b) as [|x xs]; [contradiction|].
  cbn [map Math_min Math_max Math_round].
  eexists. eexists. split; [reflexivity|]. split; [reflexivity|].
  apply Qfloor_resp_le, Qplus_le_l.
  eapply Qle_trans.
  - apply fold_Qmin_le. now left.
  - apply fold_Qmax_ge. now left.
Qed.

Lemma shown_low_is_at_most_shown_high_witness :
  In sampleDay (dailyForecasts sampleEnv sampleItems)
  /\ exists lo hi : Z,
       lowShown sampleDay = Finite (inject_Z lo)
       /\ highShown sampleDay = Finite (inject_Z hi)
       /\ lo <= hi.
Proof.
  split; [exact sampleDay_In|].
  exact (shown_low_is_at_most_shown_high sampleEnv sampleItems sampleDay sampleDay_In).
Defined.

Example sampleDay_shown :
  lowShown sampleDay = Finite (inject_Z 3) /\ highShown sampleDay = Finite (inject_Z 4).
Proof. split; vm_compute; reflexivity. Qed.

End ForecastLabels.

(* ===================================================================== *)
(** * More on the city search *)
(* ===================================================================== *)

Module WeatherApiMore.
Import JS JSFacts WeatherApi WeatherApiSpec.
Local Open Scope list_scope.

(** The filter's verdict on a record it can read. *)
Definition placeLike (item : any) : bool :=
  match isPlace item with
  | Ok keep => keep
  | Throw _ => false
  end.

(** A record on which reading a property throws. *)
Definition unreadable (item : any) : Prop := item = Null \/ item = Undefined.

(** A record that has a truthy name or a display name that is a string. *)
Definition named (item : any) : Prop :=
  truthy (field item "name") = true
  \/ exists full, field item "display_name" = Str full.

Lemma prop_readable item k : ~ unreadable item -> prop item k = Ok (field item k).
Proof.
  unfold unreadable, field. intros H.
  destruct item; simpl; try reflexivity; try (exfalso; apply H; auto; fail).
  now destruct (get o k).
Qed.

Lemma isPlace_readable item : ~ unreadable item -> isPlace item = Ok (placeLike item).
Proof.
  intros H. unfold placeLike, isPlace. now rewrite (prop_readable _ _ H).
Qed.

Lemma isPlace_unreadable item : unreadable item -> isPlace item = Throw TypeError.
Proof. intros [->| ->]; reflexivity. Qed.

Lemma filterE_throws {A : Type} (p : A -> result bool) xs x e :
  In x xs -> p x = Throw e -> exists e', filterE p xs = Throw e'.
Proof.
  induction xs as [|y xs IH]; simpl; [contradiction|].
  intros [->|Hin] Hx.
  - rewrite Hx. simpl. eauto.
  - destruct (p y) as [keep|e0]; simpl; [|eauto].
    destruct (IH Hin Hx) as (e' & ->). simpl. eauto.
Qed.

Lemma filterE_filter {A : Type} (p : A -> result bool) (q : A -> bool) xs :
  (forall x, In x xs -> p x = Ok (q x)) -> filterE p xs = Ok (filter q xs).
Proof.
  induction xs as [|x xs IH]; simpl; intros H; [reflexivity|].
  rewrite (H x (or_introl eq_refl)). simpl.
  rewrite IH by (intros y Hy; apply H; now right). simpl.
  now destruct (q x).
Qed.

Lemma mapE_total {A B : Type} (f : A -> result B) xs :
  (forall x, In x xs -> exists y, f x = Ok y) -> exists ys, mapE f xs = Ok ys.
Proof.
  induction xs as [|x xs IH]; simpl; intros H; [eauto|].
  destruct (H x (or_introl eq_refl)) as (y & ->). simpl.
  destruct IH as (ys & ->); [intros z Hz; apply H; now right|].
  simpl. eauto.
Qed.

Lemma Forall2_impl_In {A B : Type} (R R' : A -> B -> Prop) xs ys :
  Forall2 R xs ys ->
  (forall x y, In x xs -> R x y -> R' x y) -> Forall2 R' xs ys.
Proof.
  induction 1 as [|x y xs ys HR Hrest IH]; intros H; constructor.
  - apply H; [now left | exact HR].
  - apply IH. intros x' y' Hin. apply H. now right.
Qed.

Lemma optProp_ok a k : exists v, optProp a k = Ok v.
Proof.
  destruct a; simpl; eauto. destruct (get o k); eauto.
Qed.

Lemma orElse_default a v :
  orElse a (Ok v) = Ok (if truthy a then a else v).
Proof. unfold orElse. now destruct (truthy a). Qed.

(** A readable record with a name becomes a suggestion. *)
Lemma toSuggestion_total parseFloat item :
  ~ unreadable item -> named item -> exists c, toSuggestion parseFloat item = Ok c.
Proof.
  intros Hread Hnamed. unfold toSuggestion.
  rewrite !(prop_readable item _ Hread). cbn [andThen].
  assert (Hname : exists n, orElse (field item "name")
                              (firstSegment (field item "display_name")) = Ok n).
  { unfold orElse. destruct (truthy (field item "name")) eqn:E; [eauto|].
    destruct Hnamed as [H|(full & ->)]; [congruence|]. simpl. eauto. }
  destruct Hname as (n & ->). cbn [andThen].
  destruct (optProp_ok (field item "address") "country") as (c0 & ->). cbn [andThen].
  rewrite orElse_default. cbn [andThen].
  destruct (optProp_ok (field item "address") "state") as (s0 & ->). cbn [andThen].
  destruct (optProp_ok (field item "address") "region") as (r0 & ->). cbn [andThen].
  rewrite orElse_default.
  unfold orElse. destruct (truthy s0); cbn [andThen]; eauto.
Qed.

(** The promise of a search whose request is answered by an array. *)
Lemma settles_array parseFloat net query limit response items :
  trim query <> EmptyString -> (2 <= String.length query)%nat ->
  net (searchRequest query limit) = Ok response ->
  ok response = true ->
  json response = Ok (Array items) ->
  settles parseFloat net query limit
  = match suggestionsOf parseFloat items limit with
    | Ok out => Ok out
    | Throw _ => Ok []
    end.
Proof.
  intros Hne Hlen Hnet Hok Hjson. unfold settles, searchCities. simpl truthy.
  assert (Hguard : negb (negb (String.eqb (trim query) "")) || (String.length query <? 2)%nat
                   = false).
  { apply orb_false_iff. split.
    - rewrite negb_involutive. now apply String.eqb_neq.
    - apply Nat.ltb_ge. lia. }
  rewrite Hguard. simpl. rewrite Hnet. simpl. rewrite Hok. simpl. rewrite Hjson. simpl.
  now destruct (suggestionsOf parseFloat items limit).
Qed.

(** X10.  One unreadable record empties the whole list: when the array
    holds a [null] anywhere, even after the first [limit] places, the
    filter throws on it and the search resolves to no suggestion. *)
Theorem null_record_empties_the_list
    (parseFloat : any -> number) (net : Request -> result Response)
    (query : string) (limit : Z) (response : Response) (items : list any) :
  net (searchRequest query limit) = Ok response ->
  ok response = true ->
  json response = Ok (Array items) ->
  In Null items ->
  settles parseFloat net query limit = Ok [].
Proof.
  intros Hnet Hok Hjson Hnull. unfold settles, searchCities.
  destruct (negb _ || _); simpl; [reflexivity|].
  rewrite Hnet. simpl. rewrite Hok. simpl. rewrite Hjson. simpl.
  unfold suggestionsOf.
  destruct (filterE_throws isPlace items Null TypeError Hnull eq_refl) as (e' & ->).
  reflexivity.
Qed.

Lemma null_record_empties_the_list_witness :
  In Null (sampleData ++ [Null])
  /\ settles parseInteger
       (always (Ok {| ok := true; json := Ok (Array (sampleData ++ [Null])) |}))
       "Paris" 2
     = Ok [].
Proof.
  assert (H : In Null (sampleData ++ [Null])) by (apply in_or_app; right; left; reflexivity).
  split; [exact H|].
  apply (null_record_empties_the_list parseInteger
           (always (Ok {| ok := true; json := Ok (Array (sampleData ++ [Null])) |}))
           "Paris" 2
           {| ok := true; json := Ok (Array (sampleData ++ [Null])) |}
           (sampleData ++ [Null])); [reflexivity | reflexivity | reflexivity | exact H].
Defined.

(** X11.  On a clean array the suggestions are, one for one and in
    order, made from the first [limit] records of a place type: no such
    record is skipped, and for a limit that is not negative their number
    is the smaller of [limit] and the number of such records. *)
Theorem clean_array_gives_the_first_places
    (parseFloat : any -> number) (net : Request -> result Response)
    (query : string) (limit : Z) (response : Response) (items : list any) :
  trim query <> EmptyString -> (2 <= String.length query)%nat ->
  net (searchRequest query limit) = Ok response ->
  ok response = true ->
  json response = Ok (Array items) ->
  (forall item, In item items -> ~ unreadable item) ->
  (forall item, In item (slice0 (filter placeLike items) limit) -> named item) ->
  exists out,
    settles parseFloat net query limit = Ok out
    /\ Forall2 (madeFrom parseFloat) (slice0 (filter placeLike items) limit) out
    /\ (0 <= limit ->
        Z.of_nat (List.length out)
        = Z.min limit (Z.of_nat (List.length (filter placeLike items)))).
Proof.
  intros Hne Hlen Hnet Hok Hjson Hread Hnamed.
  rewrite (settles_array _ _ _ _ _ _ Hne Hlen Hnet Hok Hjson).
  unfold suggestionsOf.
  rewrite (filterE_filter isPlace placeLike items)
    by (intros x Hx; apply isPlace_readable; now apply Hread).
  cbn [andThen].
  set (places := slice0 (filter placeLike items) limit) in *.
  assert (Hin : forall item, In item places -> In item items /\ placeLike item = true).
  { intros item Hitem. apply slice0_In in Hitem. now apply filter_In in Hitem. }
  destruct (mapE_total (toSuggestion parseFloat) places) as (out & Hout).
  { intros item Hitem. apply toSuggestion_total.
    - apply Hread. now apply Hin.
    - now apply Hnamed. }
  rewrite Hout. exists out. split; [reflexivity|].
  pose proof (mapE_Forall2 _ _ _ Hout) as Hall. split.
  - apply (Forall2_impl_In _ _ _ _ Hall). intros item c Hitem Hc.
    apply toSuggestion_madeFrom; [|exact Hc].
    destruct (Hin _ Hitem) as [Hitems Hplace].
    rewrite (isPlace_readable _ (Hread _ Hitems)). now rewrite Hplace.
  - intros Hlimit. rewrite <- (Forall2_length Hall). subst places.
    rewrite slice0_nonneg by assumption. rewrite length_firstn. lia.
Qed.

Lemma clean_array_gives_the_first_places_witness :
  exists out,
    settles parseInteger (always (Ok sampleResponse)) "Paris" 2 = Ok out
    /\ Forall2 (madeFrom parseInteger) (slice0 (filter placeLike sampleData) 2) out
    /\ (0 <= 2 ->
        Z.of_nat (List.length out)
        = Z.min 2 (Z.of_nat (List.length (filter placeLike sampleData)))).
Proof.
  apply (clean_array_gives_the_first_places parseInteger (always (Ok sampleResponse))
           "Paris" 2 sampleResponse sampleData).
  - discriminate.
  - vm_compute. lia.
  - reflexivity.
  - reflexivity.
  - reflexivity.
  - intros item Hitem [->| ->]; vm_compute in Hitem;
      repeat (destruct Hitem as [E|Hitem]; [discriminate E|]); contradiction.
  - intros item Hitem. vm_compute in Hitem.
    destruct Hitem as [<-|[<-|[]]].
    + left. reflexivity.
    + right. eexists. reflexivity.
Defined.

(** A value that is there: truthy, or a string. *)
Definition present (v : any) : Prop :=
  truthy v = true \/ exists text, v = Str text.

(** A value that is there or defaulted to the empty string. *)
Definition presentOrEmpty (v : any) : Prop :=
  truthy v = true \/ v = Str EmptyString.

Lemma settles_cases parseFloat net query limit out :
  settles parseFloat net query limit = Ok out ->
  out = [] \/ exists items, suggestionsOf parseFloat items limit = Ok out.
Proof.
  unfold settles, searchCities.
  destruct (negb _ || _); simpl; [intros [= <-]; now left|].
  destruct (net (searchRequest query limit)) as [response|err]; simpl;
    [|intros [= <-]; now left].
  destruct (ok response); simpl; [|intros [= <-]; now left].
  destruct (json response) as [data|err]; simpl; [|intros [= <-]; now left].
  destruct data; simpl; try (intros [= <-]; now left).
  destruct (suggestionsOf parseFloat xs limit) as [out'|err] eqn:E; simpl;
    intros [= <-]; [right; eauto | now left].
Qed.

Lemma toSuggestion_fields parseFloat item c :
  toSuggestion parseFloat item = Ok c ->
  present (name c) /\ presentOrEmpty (country c) /\ presentOrEmpty (state c).
Proof.
  unfold toSuggestion. intros Hc.
  apply andThen_Ok in Hc as (short & _ & Hc).
  apply andThen_Ok in Hc as (name' & Hname & Hc).
  apply andThen_Ok in Hc as (address & _ & Hc).
  apply andThen_Ok in Hc as (c0 & _ & Hc).
  apply andThen_Ok in Hc as (country' & Hcountry & Hc).
  apply andThen_Ok in Hc as (s0 & _ & Hc).
  apply andThen_Ok in Hc as (state' & Hstate & Hc).
  apply andThen_Ok in Hc as (lat' & _ & Hc).
  apply andThen_Ok in Hc as (lon' & _ & Hc).
  injection Hc as <-. simpl. split; [|split].
  - unfold orElse in Hname. destruct (truthy short) eqn:E.
    + injection Hname as <-. now left.
    + apply andThen_Ok in Hname as (full & _ & Hseg).
      destruct full; simpl in Hseg; try discriminate.
      injection Hseg as <-. right. eauto.
  - rewrite orElse_default in Hcountry. injection Hcountry as <-.
    destruct (truthy c0) eqn:E; [now left | now right].
  - unfold orElse in Hstate. destruct (truthy s0) eqn:E.
    + injection Hstate as <-. now left.
    + apply andThen_Ok in Hstate as (r0 & _ & Hstate).
      destruct (truthy r0) eqn:Er; injection Hstate as <-; [now left | now right].
Qed.

(** X12.  Every suggestion has its text fields: the name is truthy or a
    string, and the country and the state are truthy or the empty
    string; none is ever [undefined] or [null]. *)
Theorem suggestions_have_their_fields
    (parseFloat : any -> number) (net : Request -> result Response)
    (query : string) (limit : Z) (out : list CitySuggestion) (c : CitySuggestion) :
  settles parseFloat net query limit = Ok out ->
  In c out ->
  present (name c) /\ presentOrEmpty (country c) /\ presentOrEmpty (state c)
  /\ name c <> Undefined /\ name c <> Null
  /\ country c <> Undefined /\ country c <> Null
  /\ state c <> Undefined /\ state c <> Null.
Proof.
  intros Hout Hc.
  destruct (settles_cases _ _ _ _ _ Hout) as [->|(items & Hitems)]; [contradiction|].
  unfold suggestionsOf in Hitems.
  apply andThen_Ok in Hitems as (places & _ & Hmap).
  apply mapE_Forall2 in Hmap.
  destruct (Forall2_In_r _ _ _ _ Hmap Hc) as (item & _ & Hitem).
  destruct (toSuggestion_fields _ _ _ Hitem) as (Hn & Hco & Hst).
  repeat split; try assumption.
  all: intros E; rewrite E in *.
  all: try (destruct Hn as [H|(text & H)]; discriminate H).
  all: try (destruct Hco as [H|H]; discriminate H).
  all: destruct Hst as [H|H]; discriminate H.
Qed.

Lemma suggestions_have_their_fields_witness :
  exists out c,
    settles parseInteger (always (Ok sampleResponse)) "Paris" 2 = Ok out
    /\ In c out
    /\ present (name c) /\ presentOrEmpty (country c) /\ presentOrEmpty (state c).
Proof.
  eexists. eexists.
  assert (Hout : settles parseInteger (always (Ok sampleResponse)) "Paris" 2
                 = Ok [ {| name := Str "Paris"; country := Str "France"; state := Str "";
                           lat := Finite 48; lon := Finite 2 |};
                        {| name := Str "Paris"; country := Str "United States";
                           state := Str ""; lat := Finite 33; lon := Finite (-95) |} ])
    by (vm_compute; reflexivity).
  split; [exact Hout|]. split; [left; reflexivity|].
  pose proof (suggestions_have_their_fields parseInteger (always (Ok sampleResponse))
                "Paris" 2 _ _ Hout (or_introl eq_refl)) as (H1 & H2 & H3 & _).
  auto.
Defined.

(** ** The address of the request *)

Import WeatherFetch.

Lemma occurrences_append c a b :
  occurrences c (a ++ b) = (occurrences c a + occurrences c b)%nat.
Proof.
  induction a as [|x a IH]; simpl; [reflexivity|]. rewrite IH. lia.
Qed.

Lemma hexDigit_unreserved k : 0 <= k < 16 -> isUnreserved (hexDigit k) = true.
Proof.
  intros H.
  assert (C : k = 0 \/ k = 1 \/ k = 2 \/ k = 3 \/ k = 4 \/ k = 5 \/ k = 6 \/ k = 7
              \/ k = 8 \/ k = 9 \/ k = 10 \/ k = 11 \/ k = 12 \/ k = 13 \/ k = 14
              \/ k = 15) by lia.
  repeat (destruct C as [->|C]; [reflexivity|]). subst k. reflexivity.
Qed.

Lemma unreserved_differs c c' :
  isUnreserved c = false -> isUnreserved c' = true -> Ascii.eqb c' c = false.
Proof.
  intros Hc Hc'. destruct (Ascii.eqb_spec c' c) as [->|]; [congruence | reflexivity].
Qed.

Lemma occurrences_percent c byte :
  isUnreserved c = false -> c <> "%"%char -> 0 <= byte < 256 ->
  occurrences c (percent byte) = 0%nat.
Proof.
  intros Hc Hp Hb. unfold percent. cbn [occurrences].
  rewrite (unreserved_differs c (hexDigit (byte / 16)) Hc)
    by (apply hexDigit_unreserved; Z.to_euclidean_division_equations; lia).
  rewrite (unreserved_differs c (hexDigit (byte mod 16)) Hc)
    by (apply hexDigit_unreserved; Z.to_euclidean_division_equations; lia).
  destruct (Ascii.eqb_spec "%"%char c) as [E|]; [now symmetry in E | reflexivity].
Qed.

(** An escaped text holds no reserved character. *)
Lemma occurrences_encodeURIComponent c s :
  isUnreserved c = false -> c <> "%"%char ->
  occurrences c (encodeURIComponent s) = 0%nat.
Proof.
  intros Hc Hp. induction s as [|x s IH]; [reflexivity|].
  cbn [encodeURIComponent]. rewrite occurrences_append, IH, Nat.add_0_r.
  pose proof (nat_ascii_bounded x) as Hx.
  set (n := Z.of_nat (nat_of_ascii x)). assert (Hn : 0 <= n < 256) by (subst n; lia).
  clearbody n.
  destruct (isUnreserved x) eqn:Ex.
  - cbn [occurrences]. now rewrite (unreserved_differs c x Hc Ex).
  - destruct (n <? 128).
    + now apply occurrences_percent.
    + rewrite occurrences_append, !occurrences_percent; try assumption;
        try reflexivity; Z.to_euclidean_division_equations; lia.
Qed.

Lemma occurrences_digits c fuel : forall n,
  digitValue c = None -> occurrences c (digits_fuel fuel n) = 0%nat.
Proof.
  induction fuel as [|fuel IH]; intros n Hc; cbn [digits_fuel]; [reflexivity|].
  destruct (n <? 10).
  - cbn [occurrences]. now rewrite (CalendarFacts.digit_not_sep n c Hc).
  - rewrite occurrences_append, (IH _ Hc). cbn [occurrences].
    now rewrite (CalendarFacts.digit_not_sep n c Hc).
Qed.

Lemma occurrences_integerToString c n :
  digitValue c = None -> c <> "-"%char -> occurrences c (integerToString n) = 0%nat.
Proof.
  intros Hc Hm. unfold integerToString, numeral.
  destruct (n <? 0).
  - change ("-" ++ ?s)%string with (String "-" s). cbn [occurrences append].
    rewrite (occurrences_digits c _ _ Hc).
    destruct (Ascii.eqb_spec "-"%char c) as [E|]; [now symmetry in E | reflexivity].
  - now apply occurrences_digits.
Qed.

(** X13.  The address of a search has the same four parameters whatever
    the query and the limit: the escaped query adds no ampersand, equals
    sign, question mark, hash or space. *)
Theorem search_address_has_four_parameters (query : string) (limit : Z) :
  occurrences "&" (url (searchRequest query limit)) = 3%nat
  /\ occurrences "=" (url (searchRequest query limit)) = 4%nat
  /\ occurrences "?" (url (searchRequest query limit)) = 1%nat
  /\ occurrences "#" (url (searchRequest query limit)) = 0%nat
  /\ occurrences " " (url (searchRequest query limit)) = 0%nat.
Proof.
  unfold searchRequest. cbn [url].
  repeat split;
    rewrite !occurrences_append,
      occurrences_encodeURIComponent, occurrences_integerToString
      by (reflexivity || discriminate);
    reflexivity.
Qed.

End WeatherApiMore.

(* ===================================================================== *)
(** * The weather and forecast requests *)
(* ===================================================================== *)

Module WeatherFetchSpec.
Import JS JSFacts WeatherApi WeatherApiSpec WeatherApiMore WeatherFetch.
Local Open Scope list_scope.

Section ClientFacts.
Variable API_KEY : string.
Variable numberToString : number -> string.

Local Abbreviation perform := (perform API_KEY numberToString).

(** The address a call is sent to. *)
Definition addressOf (c : call) : string :=
  match perform c with
  | Awaiting req _ => url req
  | _ => EmptyString
  end.

Definition requestOf (c : call) : Request := {| url := addressOf c; headers := [] |}.

(** How the promise of a call settles, and what it requested. *)
Definition outcome (net : Request -> result Response) (c : call) : any + rejection :=
  snd (runTask net (perform c)).

Definition requested (net : Request -> result Response) (c : call) : list Request :=
  fst (runTask net (perform c)).

Lemma perform_fetchOrThrow c :
  perform c = fetchOrThrow (addressOf c) (fallbackOf c).
Proof. destruct c; reflexivity. Qed.

Lemma runTask_perform net c :
  runTask net (perform c)
  = ([requestOf c],
     match net (requestOf c) with
     | Throw e => inr (Native e)
     | Ok response =>
         if negb (ok response) then
           match json response with
           | Throw e => inr (Native e)
           | Ok body =>
               match prop body "message" with
               | Throw e => inr (Native e)
               | Ok message =>
                   inr (NewError (if truthy message then message
                                  else Str (fallbackOf c)))
               end
           end
         else
           match json response with
           | Throw e => inr (Native e)
           | Ok data => inl data
           end
     end).
Proof.
  rewrite perform_fetchOrThrow. unfold fetchOrThrow, requestOf. cbn [runTask].
  destruct (net _) as [response|e]; cbn; [|reflexivity].
  destruct (ok response); cbn.
  - destruct (json response) as [data|e]; reflexivity.
  - destruct (json response) as [body|e]; cbn; [|reflexivity].
    destruct (prop body "message") as [message|e]; reflexivity.
Qed.

End ClientFacts.

(** X14.  A call by coordinates, and a call by a city name that is a
    string of code units below 256 (such a name holds no surrogate, so
    [encodeURIComponent] does not throw on it), issues exactly one
    request, without headers, and its promise is fulfilled only when
    that request got a success status and a body that parses; it is
    then fulfilled with the parsed body as it is.  City names with a
    lone surrogate, on which [encodeURIComponent] throws before any
    request is made, are outside [call]. *)
Theorem weather_call_fulfilled_only_on_success
    (API_KEY : string) (numberToString : number -> string)
    (net : Request -> result Response) (c : call) :
  requested API_KEY numberToString net c = [requestOf API_KEY numberToString c]
  /\ (forall data,
        outcome API_KEY numberToString net c = inl data <->
        exists response,
          net (requestOf API_KEY numberToString c) = Ok response
          /\ ok response = true
          /\ json response = Ok data).
Proof.
  unfold requested, outcome. rewrite runTask_perform. cbn [fst snd].
  split; [reflexivity|]. intros data. split.
  - destruct (net _) as [response|e]; [|discriminate].
    destruct (ok response) eqn:Eok; cbn.
    + destruct (json response) as [d|e] eqn:Ej; [|discriminate].
      intros [= ->]. exists response. auto.
    + destruct (json response) as [body|e]; [|discriminate].
      destruct (prop body "message"); discriminate.
  - intros (response & -> & Hok & Hjson). now rewrite Hok, Hjson.
Qed.

(** X15.  On a failure status a call rejects with an [Error] whose
    message is the [message] of the body when that is truthy, and
    otherwise the fallback of the call (weather or forecast); when the
    body does not parse, or is [null], the run-time's own error comes
    out instead. *)
Theorem weather_call_failure_message
    (API_KEY : string) (numberToString : number -> string)
    (net : Request -> result Response) (c : call) (response : Response) :
  net (requestOf API_KEY numberToString c) = Ok response ->
  ok response = false ->
  (forall body, json response = Ok body -> ~ unreadable body ->
     outcome API_KEY numberToString net c
     = inr (NewError (if truthy (field body "message") then field body "message"
                      else Str (fallbackOf c))))
  /\ (json response = Ok Null ->
      outcome API_KEY numberToString net c = inr (Native TypeError))
  /\ (forall e, json response = Throw e ->
      outcome API_KEY numberToString net c = inr (Native e)).
Proof.
  intros Hnet Hok. unfold outcome. rewrite runTask_perform, Hnet, Hok. cbn.
  split; [|split].
  - intros body -> Hread. now rewrite (prop_readable _ _ Hread).
  - intros ->. reflexivity.
  - intros e ->. reflexivity.
Qed.

Lemma weather_call_failure_message_witness :
  always (Ok notFound) (requestOf "key" wholeToString (WeatherByCity "Atlantis"))
  = Ok notFound
  /\ outcome "key" wholeToString (always (Ok notFound)) (WeatherByCity "Atlantis")
     = inr (NewError (Str "city not found"))
  /\ outcome "key" wholeToString
       (always (Ok {| ok := false; json := Ok (Object []) |}))
       (ForecastByCoords (Finite 48) (Finite 2))
     = inr (NewError (Str "Failed to fetch forecast data")).
Proof.
  split; [reflexivity|]. split.
  - apply (proj1 (weather_call_failure_message "key" wholeToString
                    (always (Ok notFound)) (WeatherByCity "Atlantis") notFound
                    eq_refl eq_refl)
             (Object [("cod", Str "404"); ("message", Str "city not found")]) eq_refl).
    intros [H|H]; discriminate H.
  - apply (proj1 (weather_call_failure_message "key" wholeToString
                    (always (Ok {| ok := false; json := Ok (Object []) |}))
                    (ForecastByCoords (Finite 48) (Finite 2))
                    {| ok := false; json := Ok (Object []) |}
                    eq_refl eq_refl)
             (Object []) eq_refl).
    intros [H|H]; discriminate H.
Defined.

(** X16.  A city name adds no parameter to the address of a request by
    city: the address has the two ampersands and the one question mark
    of its pattern, plus those of the key. *)
Theorem city_name_adds_no_parameter
    (API_KEY : string) (numberToString : number -> string) (city : string) (c : call) :
  c = WeatherByCity city \/ c = ForecastByCity city ->
  occurrences "&" (addressOf API_KEY numberToString c)
  = (2 + occurrences "&" API_KEY)%nat
  /\ occurrences "?" (addressOf API_KEY numberToString c)
     = (1 + occurrences "?" API_KEY)%nat
  /\ occurrences "#" (addressOf API_KEY numberToString c) = occurrences "#" API_KEY
  /\ occurrences " " (addressOf API_KEY numberToString c) = occurrences " " API_KEY.
Proof.
  intros [-> | ->]; unfold addressOf; cbn [perform getWeatherByCity getForecastByCity
                                           fetchOrThrow url];
    repeat split;
    rewrite !occurrences_append, occurrences_encodeURIComponent
      by (reflexivity || discriminate);
    cbn; lia.
Qed.

Lemma city_name_adds_no_parameter_witness :
  occurrences "&" (addressOf "key" wholeToString (WeatherByCity "a&b=c d"))
  = (2 + occurrences "&" "key")%nat.
Proof.
  exact (proj1 (city_name_adds_no_parameter "key" wholeToString "a&b=c d"
                  (WeatherByCity "a&b=c d") (or_introl eq_refl))).
Defined.

End WeatherFetchSpec.

(* ===================================================================== *)
(** * More on the autocomplete engine *)
(* ===================================================================== *)

Module CityAutocompleteMore.
Import JS WeatherApi CityAutocomplete CityAutocompleteSpec.
Local Open Scope list_scope.

(** The panel is open only on a list that is not empty. *)
Definition openOnSuggestions (st : State) : Prop :=
  isOpen st = true -> suggestions st <> [].

(** The pending timer, if any, is for the current text, which has at
    least two characters. *)
Definition timerForCurrentText (st : State) : Prop :=
  debounce st = None
  \/ debounce st = Some (value st) /\ (2 <= String.length (value st))%nat.

(** The searches among the effects of a handler. *)
Definition searches (effects : list Effect) : list (string * Z) :=
  flat_map (fun eff => match eff with Search q l => [(q, l)] | _ => [] end) effects.

Section MoreEngineFacts.
Variable toString : any -> string.

Local Abbreviation step := (step toString).
Local Abbreviation press := (press toString).

Lemma valueEffect_fields st :
  value (valueEffect st) = value st
  /\ selectedIndex (valueEffect st) = selectedIndex st
  /\ ((String.length (value st) < 2)%nat ->
      suggestions (valueEffect st) = [] /\ isOpen (valueEffect st) = false
      /\ debounce (valueEffect st) = None)
  /\ ((2 <= String.length (value st))%nat ->
      suggestions (valueEffect st) = suggestions st
      /\ isOpen (valueEffect st) = isOpen st
      /\ debounce (valueEffect st) = Some (value st)).
Proof.
  unfold valueEffect. cbn [value setDebounce].
  destruct (Nat.ltb_spec (String.length (value st)) 2); cbn; repeat split; auto; lia.
Qed.

Lemma valueEffect_coherent st :
  openOnSuggestions st ->
  openOnSuggestions (valueEffect st) /\ timerForCurrentText (valueEffect st).
Proof.
  intros Hopen. destruct (valueEffect_fields st) as (Hv & _ & Hshort & Hlong).
  unfold openOnSuggestions, timerForCurrentText. rewrite Hv.
  destruct (Nat.lt_ge_cases (String.length (value st)) 2) as [H|H].
  - destruct (Hshort H) as (_ & Hclosed & Hnone). rewrite Hclosed, Hnone.
    split; [discriminate | now left].
  - destruct (Hlong H) as (Hs & Ho & Hd). rewrite Hs, Ho, Hd.
    split; [exact Hopen | right; auto].
Qed.

Lemma render_coherent previous st :
  timerForCurrentText previous ->
  debounce st = debounce previous ->
  openOnSuggestions st ->
  openOnSuggestions (render previous st) /\ timerForCurrentText (render previous st).
Proof.
  intros Htimer Hd Hopen. unfold render.
  destruct (String.eqb_spec (value st) (value previous)) as [E|_].
  - split; [exact Hopen|]. unfold timerForCurrentText in *. now rewrite Hd, E.
  - now apply valueEffect_coherent.
Qed.

Lemma handleSelect_coherent city st :
  timerForCurrentText st ->
  openOnSuggestions (fst (handleSelect toString city st))
  /\ timerForCurrentText (fst (handleSelect toString city st)).
Proof.
  intros Htimer. unfold handleSelect. cbn [fst].
  apply render_coherent; [exact Htimer | reflexivity | discriminate].
Qed.

(** No event breaks the two properties. *)
Lemma step_coherent st ev :
  openOnSuggestions st -> timerForCurrentText st ->
  openOnSuggestions (fst (step st ev)) /\ timerForCurrentText (fst (step st ev)).
Proof.
  intros Hopen Htimer.
  destruct ev as [text| |results|key|inside| |index]; cbn [CityAutocomplete.step fst].
  - unfold handleInputChange. apply render_coherent; [exact Htimer | reflexivity | exact Hopen].
  - unfold debounceElapsed. destruct (debounce st); cbn; split; auto. now left.
  - split; [|exact Htimer]. unfold queryCompleted, openOnSuggestions. cbn.
    destruct results; [discriminate | intros _; discriminate].
  - unfold handleKeyDown.
    destruct (negb (isOpen st) || (List.length (suggestions st) =? 0)%nat);
      [split; assumption|].
    destruct key; cbn [fst]; try (split; assumption).
    + destruct ((0 <=? selectedIndex st)
                && (selectedIndex st <? Z.of_nat (List.length (suggestions st))));
        [|split; assumption].
      destruct (nth_error (suggestions st) (Z.to_nat (selectedIndex st))) as [city|];
        [|split; assumption].
      pose proof (handleSelect_coherent city st Htimer) as H.
      destruct (handleSelect toString city st). exact H.
    + split; [discriminate | exact Htimer].
  - unfold handleClickOutside. destruct (negb inside); [|split; assumption].
    split; [discriminate | exact Htimer].
  - unfold handleFocus.
    destruct (List.length (suggestions st) =? 0)%nat eqn:E; cbn; [split; assumption|].
    split; [|exact Htimer]. intros _ Hnil. cbn in Hnil. rewrite Hnil in E. discriminate.
  - unfold handleClick. destruct (panelShown st); [|split; assumption].
    destruct (nth_error (suggestions st) index) as [city|]; [|split; assumption].
    now apply handleSelect_coherent.
Qed.

Lemma reachable_coherent st :
  reachable toString st -> openOnSuggestions st /\ timerForCurrentText st.
Proof.
  induction 1 as [v|st ev Hreach [IH1 IH2]].
  - apply valueEffect_coherent. discriminate.
  - now apply step_coherent.
Qed.

End MoreEngineFacts.

(** X17.  The panel is never open on an empty list: in every state the
    component can reach, [isOpen] implies that there are suggestions, so
    the panel is shown exactly when [isOpen] holds. *)
Theorem panel_open_only_on_suggestions (toString : any -> string) (st : State) :
  reachable toString st ->
  (isOpen st = true -> suggestions st <> [])
  /\ panelShown st = isOpen st.
Proof.
  intros Hreach. destruct (reachable_coherent toString st Hreach) as [Hopen _].
  split; [exact Hopen|].
  unfold panelShown, openOnSuggestions in *. destruct (isOpen st); [|reflexivity].
  specialize (Hopen eq_refl). destruct (suggestions st); [contradiction | reflexivity].
Qed.

Lemma panel_open_only_on_suggestions_witness :
  isOpen sampleState = true
  /\ suggestions sampleState <> []
  /\ panelShown sampleState = isOpen sampleState.
Proof.
  destruct (panel_open_only_on_suggestions plainToString sampleState sampleState_reachable)
    as [H1 H2].
  split; [reflexivity|]. split; [apply H1; reflexivity | exact H2].
Defined.

(** X18.  Only the current text is ever searched: in every reachable
    state a pending timer is for the text now in the input, and a search
    started by any event is for that text, has at least two characters
    and asks for five results. *)
Theorem searches_are_for_the_current_text
    (toString : any -> string) (st : State) :
  reachable toString st ->
  (debounce st = None
   \/ debounce st = Some (value st) /\ (2 <= String.length (value st))%nat)
  /\ forall ev query limit,
       In (query, limit) (searches (snd (step toString st ev))) ->
       ev = DebounceElapsed /\ query = value st /\ limit = 5
       /\ (2 <= String.length query)%nat.
Proof.
  intros Hreach. destruct (reachable_coherent toString st Hreach) as [_ Htimer].
  split; [exact Htimer|].
  intros ev query limit Hin.
  destruct ev as [text| |results|key|inside| |index]; cbn [CityAutocomplete.step snd] in Hin.
  - destruct Hin.
  - unfold debounceElapsed in Hin.
    destruct Htimer as [Hnone|[Hsome Hlen]].
    + rewrite Hnone in Hin. destruct Hin.
    + rewrite Hsome in Hin. cbn in Hin. destruct Hin as [[= <- <-]|[]]. auto.
  - destruct Hin.
  - exfalso. unfold handleKeyDown in Hin.
    destruct (negb (isOpen st) || (List.length (suggestions st) =? 0)%nat); [destruct Hin|].
    destruct key; cbn in Hin; try tauto.
    destruct ((0 <=? selectedIndex st)
              && (selectedIndex st <? Z.of_nat (List.length (suggestions st))));
      [|cbn in Hin; tauto].
    destruct (nth_error (suggestions st) (Z.to_nat (selectedIndex st)));
      cbn in Hin; tauto.
  - destruct Hin.
  - destruct Hin.
  - exfalso. unfold handleClick in Hin.
    destruct (panelShown st); [|destruct Hin].
    destruct (nth_error (suggestions st) index); cbn in Hin; tauto.
Qed.

Lemma searches_are_for_the_current_text_witness :
  reachable plainToString (steps plainToString (valueEffect (initial "")) [Change "Pa"])
  /\ In ("Pa", 5) (searches (snd (step plainToString
                      (steps plainToString (valueEffect (initial "")) [Change "Pa"])
                      DebounceElapsed)))
  /\ "Pa" = value (steps plainToString (valueEffect (initial "")) [Change "Pa"]).
Proof.
  assert (H : reachable plainToString
                (steps plainToString (valueEffect (initial "")) [Change "Pa"]))
    by (apply reachable_steps; constructor).
  assert (Hin : In ("Pa", 5) (searches (snd (step plainToString
                      (steps plainToString (valueEffect (initial "")) [Change "Pa"])
                      DebounceElapsed))))
    by (left; reflexivity).
  split; [exact H|]. split; [exact Hin|].
  exact (proj1 (proj2 (proj2 (searches_are_for_the_current_text plainToString _ H)
                         DebounceElapsed "Pa" 5 Hin))).
Defined.

(** X19.  A change of the text drops whatever timer was pending.  A new
    text shorter than two characters empties and closes the panel at
    once and arms no timer; a longer one leaves the panel as it is and
    arms one timer, whose expiry starts one search for that text with
    limit 5 and after which nothing more is searched. *)
Theorem typing_rearms_the_timer (toString : any -> string) (st : State) (text : string) :
  text <> value st ->
  let st' := fst (step toString st (Change text)) in
  value st' = text
  /\ selectedIndex st' = selectedIndex st
  /\ snd (step toString st (Change text)) = [OnChange text]
  /\ ((String.length text < 2)%nat ->
      suggestions st' = [] /\ isOpen st' = false /\ debounce st' = None
      /\ step toString st' DebounceElapsed = (st', []))
  /\ ((2 <= String.length text)%nat ->
      suggestions st' = suggestions st /\ isOpen st' = isOpen st
      /\ debounce st' = Some text
      /\ snd (step toString st' DebounceElapsed) = [Search text 5]
      /\ snd (step toString (fst (step toString st' DebounceElapsed)) DebounceElapsed)
         = []).
Proof.
  intros Hne st'.
  assert (Hst' : st' = valueEffect (setSearchQuery text st)).
  { subst st'. cbn [step fst]. unfold handleInputChange, render. cbn [value setSearchQuery setValue].
    destruct (String.eqb_spec text (value st)); [contradiction | reflexivity]. }
  destruct (valueEffect_fields (setSearchQuery text st)) as (Hv & Hsel & Hshort & Hlong).
  cbn [value selectedIndex suggestions isOpen setSearchQuery setValue] in Hv, Hsel, Hshort, Hlong.
  rewrite Hst'. split; [exact Hv|]. split; [exact Hsel|]. split; [reflexivity|]. split.
  - intros H. destruct (Hshort H) as (H1 & H2 & H3).
    repeat split; try assumption.
    cbn [step]. unfold debounceElapsed. now rewrite H3.
  - intros H. destruct (Hlong H) as (H1 & H2 & H3).
    repeat split; try assumption.
    + cbn [step]. unfold debounceElapsed. now rewrite H3.
    + cbn [step]. unfold debounceElapsed. rewrite H3. reflexivity.
Qed.

Lemma typing_rearms_the_timer_witness :
  "Par" <> value sampleState
  /\ debounce (fst (step plainToString sampleState (Change "Par"))) = Some "Par"
  /\ snd (step plainToString (fst (step plainToString sampleState (Change "Par")))
            DebounceElapsed)
     = [Search "Par" 5].
Proof.
  assert (Hne : "Par" <> value sampleState) by (intros E; discriminate E).
  split; [exact Hne|].
  destruct (typing_rearms_the_timer plainToString sampleState "Par" Hne)
    as (_ & _ & _ & _ & Hlong).
  destruct Hlong as (_ & _ & Hd & Hs & _); [vm_compute; lia|].
  split; [exact Hd | exact Hs].
Defined.

(** X20.  Choosing a suggestion, by a click on its row, reports the
    label to [onChange] and the suggestion to [onSelect], and leaves the
    input empty (the parent clears the query), the panel emptied and
    closed, the cursor where it was and no timer pending. *)
Theorem click_commits_and_clears
    (toString : any -> string) (st : State) (index : nat) (city : CitySuggestion) :
  reachable toString st ->
  panelShown st = true ->
  nth_error (suggestions st) index = Some city ->
  step toString st (Click index)
  = ({| value := EmptyString; suggestions := []; isOpen := false;
        selectedIndex := selectedIndex st; debounce := None |},
     [OnChange (getCityDisplayName toString city); OnSelect city]).
Proof.
  intros Hreach Hshown Hcity.
  destruct (reachable_coherent toString st Hreach) as [_ Htimer].
  cbn [step]. unfold handleClick. rewrite Hshown, Hcity.
  unfold handleSelect, render.
  cbn [value setSuggestions setIsOpen handleCitySelect setSearchQuery setValue].
  f_equal.
  destruct (String.eqb_spec EmptyString (value st)) as [E|E].
  - unfold setSuggestions, setIsOpen, handleCitySelect, setSearchQuery, setValue.
    cbn [value suggestions isOpen selectedIndex debounce].
    destruct Htimer as [Hnone|[_ Hlen]].
    + now rewrite Hnone.
    + rewrite <- E in Hlen. cbn in Hlen. lia.
  - reflexivity.
Qed.

Lemma click_commits_and_clears_witness :
  panelShown sampleState = true
  /\ nth_error (suggestions sampleState) 1 = Some (city "Padova" "Italy")
  /\ step plainToString sampleState (Click 1)
     = ({| value := EmptyString; suggestions := []; isOpen := false;
           selectedIndex := selectedIndex sampleState; debounce := None |},
        [OnChange (getCityDisplayName plainToString (city "Padova" "Italy"));
         OnSelect (city "Padova" "Italy")]).
Proof.
  split; [reflexivity|]. split; [reflexivity|].
  exact (click_commits_and_clears plainToString sampleState 1 (city "Padova" "Italy")
           sampleState_reachable eq_refl eq_refl).
Defined.

(** X21.  Closing is undone by focusing: with the panel shown, Escape
    (or a mouse press outside) followed by a focus of the input gives
    back the very same state, suggestions and cursor included. *)
Theorem escape_then_focus_restores (toString : any -> string) (st : State) :
  panelShown st = true ->
  steps toString st [KeyDown Escape; Focus] = st
  /\ steps toString st [MouseDown false; Focus] = st.
Proof.
  intros Hshown. destruct (panelShown_true _ Hshown) as [Hopen Hlen].
  unfold steps. cbn [fold_left step fst].
  rewrite (handleKeyDown_shown toString _ _ Hshown). cbn [fst].
  unfold handleClickOutside, handleFocus. cbn [negb suggestions setIsOpen].
  rewrite Hlen. cbn [negb].
  destruct st as [v sug op sel deb]. cbn in *. subst op. split; reflexivity.
Qed.

Lemma escape_then_focus_restores_witness :
  panelShown sampleState = true
  /\ steps plainToString sampleState [KeyDown Escape; Focus] = sampleState.
Proof.
  split; [reflexivity|].
  exact (proj1 (escape_then_focus_restores plainToString sampleState eq_refl)).
Defined.

(** X22.  While the panel is not shown the keyboard and the rows are
    dead: no key and no click changes the state, calls back the parent
    or prevents the default action of the key. *)
Theorem hidden_panel_ignores_keys (toString : any -> string) (st : State) :
  panelShown st = false ->
  (forall key, step toString st (KeyDown key) = (st, []))
  /\ (forall index, step toString st (Click index) = (st, [])).
Proof.
  intros Hhidden. split.
  - intros key. cbn [step]. unfold handleKeyDown.
    unfold panelShown in Hhidden.
    destruct (isOpen st); cbn in *; [|reflexivity].
    apply negb_false_iff in Hhidden. now rewrite Hhidden.
  - intros index. cbn [step]. unfold handleClick. now rewrite Hhidden.
Qed.

Lemma hidden_panel_ignores_keys_witness :
  panelShown (initial "Pa") = false
  /\ step plainToString (initial "Pa") (KeyDown Enter) = (initial "Pa", []).
Proof.
  split; [reflexivity|].
  exact (proj1 (hidden_panel_ignores_keys plainToString (initial "Pa") eq_refl) Enter).
Defined.

Lemma press_ArrowUp (toString : any -> string) n : forall st,
  panelShown st = true -> -1 <= selectedIndex st ->
  selectedIndex (press toString ArrowUp n st) = Z.max (selectedIndex st - Z.of_nat n) (-1)
  /\ suggestions (press toString ArrowUp n st) = suggestions st.
Proof.
  induction n as [|n IH]; intros st Hshown Hge.
  - unfold press, steps. cbn. split; [lia | reflexivity].
  - rewrite press_S. cbn [step]. rewrite (handleKeyDown_shown toString _ _ Hshown).
    cbn [fst].
    set (st1 := setSelectedIndex _ st).
    assert (Hshown1 : panelShown st1 = true) by exact Hshown.
    assert (Hsel1 : selectedIndex st1
                    = if 0 <? selectedIndex st then selectedIndex st - 1 else -1)
      by reflexivity.
    destruct (IH st1 Hshown1) as (H1 & H2).
    { rewrite Hsel1. destruct (Z.ltb_spec 0 (selectedIndex st)); lia. }
    rewrite H1, H2, Hsel1. split; [|reflexivity].
    destruct (Z.ltb_spec 0 (selectedIndex st)); lia.
Qed.

(** X23.  The two arrows undo each other inside the list: with the
    panel shown and the cursor in range, ArrowUp after ArrowDown gives
    back the state unless the cursor was on the last suggestion, and
    ArrowDown after ArrowUp gives it back unless there was no selection;
    [n] presses of ArrowUp take the cursor [n] down, stopping at -1. *)
Theorem arrows_undo_each_other (toString : any -> string) (st : State) :
  panelShown st = true ->
  cursorInRange st ->
  (selectedIndex st < len st - 1 ->
   steps toString st [KeyDown ArrowDown; KeyDown ArrowUp] = st)
  /\ (0 <= selectedIndex st ->
      steps toString st [KeyDown ArrowUp; KeyDown ArrowDown] = st)
  /\ (forall n,
        selectedIndex (press toString ArrowUp n st)
        = Z.max (selectedIndex st - Z.of_nat n) (-1)).
Proof.
  intros Hshown Hrange. unfold cursorInRange in Hrange.
  split; [|split].
  - intros Hlt. unfold steps. cbn [fold_left step].
    rewrite (handleKeyDown_shown toString _ _ Hshown). cbn [fst].
    rewrite (handleKeyDown_shown toString _ _) by exact Hshown. cbn [fst].
    destruct st as [v sug op sel deb]. unfold setSelectedIndex, len in *. cbn in *.
    f_equal.
    destruct (Z.ltb_spec sel (Z.of_nat (List.length sug) - 1)); [|lia].
    destruct (Z.ltb_spec 0 (sel + 1)); lia.
  - intros Hge. unfold steps. cbn [fold_left step].
    rewrite (handleKeyDown_shown toString _ _ Hshown). cbn [fst].
    rewrite (handleKeyDown_shown toString _ _) by exact Hshown. cbn [fst].
    destruct st as [v sug op sel deb]. unfold setSelectedIndex, len in *. cbn in *.
    f_equal.
    destruct (Z.ltb_spec 0 sel).
    + destruct (Z.ltb_spec (sel - 1) (Z.of_nat (List.length sug) - 1)); lia.
    + destruct (Z.ltb_spec (-1) (Z.of_nat (List.length sug) - 1)); lia.
  - intros n. apply (press_ArrowUp toString n st Hshown). lia.
Qed.

Lemma arrows_undo_each_other_witness :
  panelShown sampleState = true
  /\ cursorInRange sampleState
  /\ steps plainToString sampleState [KeyDown ArrowDown; KeyDown ArrowUp] = sampleState.
Proof.
  assert (Hrange : cursorInRange sampleState) by (vm_compute; split; intros E; discriminate E).
  split; [reflexivity|]. split; [exact Hrange|].
  apply (proj1 (arrows_undo_each_other plainToString sampleState eq_refl Hrange)).
  vm_compute. reflexivity.
Defined.

End CityAutocompleteMore.

(* ===================================================================== *)
(** * The order of the daily buckets *)
(* ===================================================================== *)

Module ForecastChronology.
Import JS JSFacts Forecast ForecastView ForecastSpec ForecastGrouping CalendarFacts.
Import ForecastLabels.
Local Open Scope list_scope.

(** ** The calendar is monotone *)

(** Days before 1 March of the year [Y], counted from 1 March 0000. *)
Definition daysBeforeYear (Y : Z) : Z := 365 * Y + Y / 4 - Y / 100 + Y / 400.

Lemma daysBeforeYear_mono Y1 Y2 :
  Y1 < Y2 -> daysBeforeYear Y1 + 365 <= daysBeforeYear Y2.
Proof. unfold daysBeforeYear. intros H. Z.to_euclidean_division_equations. lia. Qed.

(** The year that begins in March and the day of that year, as
    [civilFromDays] computes them. *)
Definition marchYear (days : Z) : Z :=
  let z := days + 719468 in
  let era := z / 146097 in
  let doe := z - era * 146097 in
  let yoe := (doe - doe / 1460 + doe / 36524 - doe / 146096) / 365 in
  yoe + era * 400.

Definition dayOfMarchYear (days : Z) : Z :=
  let z := days + 719468 in
  let era := z / 146097 in
  let doe := z - era * 146097 in
  let yoe := (doe - doe / 1460 + doe / 36524 - doe / 146096) / 365 in
  doe - (365 * yoe + yoe / 4 - yoe / 100).

Lemma marchYear_bracket days :
  days + 719468 = daysBeforeYear (marchYear days) + dayOfMarchYear days
  /\ 0 <= dayOfMarchYear days <= 365
  /\ days + 719468 < daysBeforeYear (marchYear days + 1).
Proof.
  unfold marchYear, dayOfMarchYear.
  set (z := days + 719468).
  set (era := z / 146097).
  set (doe := z - era * 146097).
  set (yoe := (doe - doe / 1460 + doe / 36524 - doe / 146096) / 365).
  set (doy := doe - (365 * yoe + yoe / 4 - yoe / 100)).
  assert (Hdoe : 0 <= doe <= 146096)
    by (subst doe era; Z.to_euclidean_division_equations; lia).
  assert (Hy : 0 <= yoe <= 399 /\ 0 <= doy <= 365)
    by (subst yoe doy; Z.to_euclidean_division_equations; lia).
  assert (Edoe : doe = z - era * 146097) by reflexivity.
  assert (Edoy : doy = doe - (365 * yoe + yoe / 4 - yoe / 100)) by reflexivity.
  assert (Hlast : doy < 365 + ((yoe + 1) / 4 - (yoe + 1) / 100 + (yoe + 1) / 400)
                          - (yoe / 4 - yoe / 100)).
  { subst doy yoe. clear Edoe Edoy Hy. clearbody doe. clear era.
    Z.to_euclidean_division_equations. lia. }
  clearbody doy yoe doe era z.
  assert (HG : daysBeforeYear (yoe + era * 400)
               = 146097 * era + 365 * yoe + yoe / 4 - yoe / 100).
  { unfold daysBeforeYear. Z.to_euclidean_division_equations. lia. }
  assert (HG1 : daysBeforeYear (yoe + era * 400 + 1)
                = 146097 * era + 365 * (yoe + 1) + (yoe + 1) / 4 - (yoe + 1) / 100
                  + (yoe + 1) / 400).
  { unfold daysBeforeYear. Z.to_euclidean_division_equations. lia. }
  rewrite HG1, HG. lia.
Qed.

(** The date from the year that begins in March and its day. *)
Lemma civilFromDays_march days :
  civilFromDays days
  = let doy := dayOfMarchYear days in
    let mp := (5 * doy + 2) / 153 in
    let d := doy - (153 * mp + 2) / 5 + 1 in
    let m := if mp <? 10 then mp + 3 else mp - 9 in
    (marchYear days + (if m <=? 2 then 1 else 0), m, d).
Proof. reflexivity. Qed.

(** Dates in the order of the calendar. *)
Definition dateLt (a b : Z * Z * Z) : Prop :=
  let '(y1, m1, d1) := a in
  let '(y2, m2, d2) := b in
  y1 < y2 \/ (y1 = y2 /\ (m1 < m2 \/ (m1 = m2 /\ d1 < d2))).

(** A later day has a later date. *)
Lemma civilFromDays_mono days1 days2 :
  days1 < days2 -> dateLt (civilFromDays days1) (civilFromDays days2).
Proof.
  intros Hlt. rewrite !civilFromDays_march.
  destruct (marchYear_bracket days1) as (E1 & B1 & L1).
  destruct (marchYear_bracket days2) as (E2 & B2 & L2).
  set (Y1 := marchYear days1) in *. set (Y2 := marchYear days2) in *.
  set (doy1 := dayOfMarchYear days1) in *. set (doy2 := dayOfMarchYear days2) in *.
  clearbody Y1 Y2 doy1 doy2.
  assert (HY : Y1 <= Y2).
  { destruct (Z.le_gt_cases Y1 Y2) as [H|H]; [exact H|].
    pose proof (daysBeforeYear_mono Y2 Y1 H).
    destruct (Z.eq_dec Y1 (Y2 + 1)) as [->|Hne]; [lia|].
    pose proof (daysBeforeYear_mono (Y2 + 1) Y1 ltac:(lia)). lia. }
  cbv zeta.
  set (mp1 := (5 * doy1 + 2) / 153). set (mp2 := (5 * doy2 + 2) / 153).
  assert (Hmp1 : 0 <= mp1 <= 11) by (subst mp1; Z.to_euclidean_division_equations; lia).
  assert (Hmp2 : 0 <= mp2 <= 11) by (subst mp2; Z.to_euclidean_division_equations; lia).
  set (d1 := doy1 - (153 * mp1 + 2) / 5 + 1). set (d2 := doy2 - (153 * mp2 + 2) / 5 + 1).
  assert (Hsame : Y1 = Y2 -> mp1 < mp2 \/ (mp1 = mp2 /\ d1 < d2)).
  { intros ->. assert (doy1 < doy2) by lia.
    subst d1 d2 mp1 mp2. Z.to_euclidean_division_equations. lia. }
  clearbody d1 d2 mp1 mp2. unfold dateLt.
  destruct (Z.ltb_spec mp1 10), (Z.ltb_spec mp2 10);
    repeat match goal with
           | |- context [?a <=? 2] => destruct (Z.leb_spec a 2); try lia
           end;
    destruct (Z.eq_dec Y1 Y2) as [E|E]; try (specialize (Hsame E)); lia.
Qed.

(** ** Keys in the order of the days *)

Lemma compare_refl_ascii c : Ascii_as_OT.compare c c = Eq.
Proof.
  destruct (Ascii_as_OT.compare_spec c c) as [_|H|H]; [reflexivity| |];
    exfalso; revert H; apply (StrictOrder_Irreflexive (R := Ascii_as_OT.lt)).
Qed.

Lemma localeCompare_prefix a s1 s2 :
  localeCompare (a ++ s1) (a ++ s2) = localeCompare s1 s2.
Proof.
  unfold localeCompare. induction a as [|c a IH]; [reflexivity|].
  cbn [append String_as_OT.compare]. now rewrite compare_refl_ascii.
Qed.

Lemma localeCompare_append_Lt a : forall b s1 s2,
  String.length a = String.length b ->
  localeCompare a b = Lt -> localeCompare (a ++ s1) (b ++ s2) = Lt.
Proof.
  unfold localeCompare. induction a as [|c a IH]; intros [|c' b] s1 s2 Hlen H;
    try discriminate.
  cbn [append String_as_OT.compare] in *.
  destruct (Ascii_as_OT.compare c c'); try assumption.
  apply IH; [now injection Hlen | exact H].
Qed.

Lemma digit_compare a b :
  a mod 10 < b mod 10 -> Ascii_as_OT.compare (digit a) (digit b) = Lt.
Proof.
  intros H.
  destruct (digit_cases a) as (k & Hk & Hmod & ->).
  destruct (digit_cases b) as (k' & Hk' & Hmod' & ->).
  rewrite Hmod, Hmod' in H.
  do 10 (destruct k as [|k];
         [do 10 (destruct k' as [|k']; [first [reflexivity | exfalso; lia]|]);
          exfalso; lia|]).
  exfalso; lia.
Qed.

(** Numbers written with the same number of digits compare as the
    numbers do. *)
Lemma pad_compare w : forall a b,
  0 <= a < b -> b < 10 ^ Z.of_nat w -> localeCompare (pad w a) (pad w b) = Lt.
Proof.
  induction w as [|w IH]; intros a b Hab Hb.
  - change (10 ^ Z.of_nat 0) with 1 in Hb. lia.
  - cbn [pad]. rewrite Nat2Z.inj_succ, Z.pow_succ_r in Hb by lia.
    destruct (Z.lt_ge_cases (a / 10) (b / 10)) as [Hlt|Hge].
    + apply localeCompare_append_Lt; [now rewrite !length_pad|].
      apply IH; Z.to_euclidean_division_equations; nia.
    + assert (Hq : a / 10 = b / 10) by (Z.to_euclidean_division_equations; lia).
      rewrite Hq, localeCompare_prefix. unfold localeCompare.
      cbn [String_as_OT.compare]. rewrite digit_compare; [reflexivity|].
      Z.to_euclidean_division_equations. lia.
Qed.

Lemma before_irrefl a : ~ before a a.
Proof.
  unfold before, localeCompare.
  exact (StrictOrder_Irreflexive (R := String_as_OT.lt) a).
Qed.

(** The keys of two days of the years 0000 to 9999 compare as the days
    do. *)
Lemma isoDate_mono days1 days2 :
  (let '(y, _, _) := civilFromDays days1 in 0 <= y <= 9999) ->
  (let '(y, _, _) := civilFromDays days2 in 0 <= y <= 9999) ->
  days1 < days2 -> before (isoDate days1) (isoDate days2).
Proof.
  intros Hy1 Hy2 Hlt. unfold before, isoDate.
  pose proof (civilFromDays_mono _ _ Hlt) as Hdate.
  pose proof (daysFromCivil_civilFromDays days1) as R1.
  pose proof (daysFromCivil_civilFromDays days2) as R2.
  destruct (civilFromDays days1) as [[y1 m1] d1], (civilFromDays days2) as [[y2 m2] d2].
  destruct R1 as (_ & Hm1 & Hd1), R2 as (_ & Hm2 & Hd2).
  assert (Hyear : forall y, 0 <= y <= 9999 -> isoYear y = pad 4 y).
  { intros y Hy. unfold isoYear.
    destruct (Z.leb_spec 0 y); [|lia]. destruct (Z.leb_spec y 9999); [|lia]. reflexivity. }
  rewrite (Hyear _ Hy1), (Hyear _ Hy2).
  unfold dateLt in Hdate. destruct Hdate as [Hy|[<- [Hm|[<- Hd]]]].
  - apply localeCompare_append_Lt; [now rewrite !length_pad|].
    apply pad_compare; [lia | change (10 ^ Z.of_nat 4) with 10000; lia].
  - rewrite localeCompare_prefix, (localeCompare_prefix "-").
    apply localeCompare_append_Lt; [now rewrite !length_pad|].
    apply pad_compare; [lia | change (10 ^ Z.of_nat 2) with 100; lia].
  - rewrite localeCompare_prefix, (localeCompare_prefix "-").
    rewrite localeCompare_prefix, (localeCompare_prefix "-").
    apply pad_compare; [lia | change (10 ^ Z.of_nat 2) with 100; lia].
Qed.

Lemma isoDate_order days1 days2 :
  (let '(y, _, _) := civilFromDays days1 in 0 <= y <= 9999) ->
  (let '(y, _, _) := civilFromDays days2 in 0 <= y <= 9999) ->
  before (isoDate days1) (isoDate days2) -> days1 < days2.
Proof.
  intros Hy1 Hy2 Hbefore.
  destruct (Z.lt_trichotomy days1 days2) as [H|[H|H]]; [exact H| |].
  - subst days2. exfalso. exact (before_irrefl _ Hbefore).
  - exfalso. apply (before_irrefl (isoDate days1)).
    eapply before_trans; [exact Hbefore|]. now apply isoDate_mono.
Qed.

Lemma fourDigitYear_day item :
  fourDigitYear item -> let '(y, _, _) := civilFromDays (utcDay item) in 0 <= y <= 9999.
Proof.
  unfold fourDigitYear, getUTCFullYear, utcDay.
  now destruct (civilFromDays (Day (dt item * 1000))) as [[y m] d].
Qed.

Lemma StronglySorted_impl_In {A : Type} (R R' : A -> A -> Prop) xs :
  (forall a b, In a xs -> In b xs -> R a b -> R' a b) ->
  StronglySorted R xs -> StronglySorted R' xs.
Proof.
  intros Himpl Hs. induction Hs as [|x xs Hs IH Hall]; constructor.
  - apply IH. intros a b Ha Hb. apply Himpl; now right.
  - rewrite Forall_forall in *. intros y Hy.
    apply Himpl; [now left | now right | now apply Hall].
Qed.

Lemma dailyForecasts_ascending (e : Env) items : ascendingDates (dailyForecasts e items).
Proof.
  rewrite dailyForecasts_eq.
  apply StronglySorted_firstn, StronglySorted_map.
  apply StronglySorted_impl
    with (R := fun a b : string * list ForecastItem => before (fst a) (fst b)).
  - now intros [k1 arr1] [k2 arr2].
  - apply sorted_entries_sorted.
Qed.

Lemma bucket_points_in_input (e : Env) items b item :
  In b (dailyForecasts e items) -> In item (allItems b) -> In item items.
Proof.
  intros Hb Hitem.
  destruct (dailyForecasts_allItems _ _ _ Hb) as (Hall & _).
  rewrite Hall in Hitem. now apply filter_In in Hitem.
Qed.

(** X24.  Buckets are days, in the order of time: for an input in the
    years 0000 to 9999, the points of one bucket are all on the same UTC
    day, and every point of a bucket is on an earlier UTC day than every
    point of the buckets listed after it. *)
Theorem buckets_are_days_in_order (e : Env) (items : list ForecastItem) :
  (forall item, In item items -> fourDigitYear item) ->
  (forall b i j, In b (dailyForecasts e items) ->
     In i (allItems b) -> In j (allItems b) -> utcDay i = utcDay j)
  /\ StronglySorted
       (fun a b => forall i j, In i (allItems a) -> In j (allItems b) ->
                               utcDay i < utcDay j)
       (dailyForecasts e items).
Proof.
  intros Hyears. split.
  - intros b i j Hb Hi Hj.
    destruct (bucket_of_point _ _ _ _ Hb Hi) as [Hdi _].
    destruct (bucket_of_point _ _ _ _ Hb Hj) as [Hdj _].
    pose proof (dateKeyOf_parse i
                  (Hyears _ (bucket_points_in_input _ _ _ _ Hb Hi))) as Pi.
    pose proof (dateKeyOf_parse j
                  (Hyears _ (bucket_points_in_input _ _ _ _ Hb Hj))) as Pj.
    rewrite <- Hdi, Hdj, Pj in Pi. injection Pi as Pi.
    unfold msPerDay in Pi. lia.
  - apply (StronglySorted_impl_In (fun a b => before (date a) (date b)));
      [|apply dailyForecasts_ascending].
    intros a b Ha Hb Hbefore i j Hi Hj.
    destruct (bucket_of_point _ _ _ _ Ha Hi) as [Hdi _].
    destruct (bucket_of_point _ _ _ _ Hb Hj) as [Hdj _].
    rewrite Hdi, Hdj, !dateKeyOf_isoDate in Hbefore.
    pose proof (fourDigitYear_day i
                  (Hyears _ (bucket_points_in_input _ _ _ _ Ha Hi))) as Yi.
    pose proof (fourDigitYear_day j
                  (Hyears _ (bucket_points_in_input _ _ _ _ Hb Hj))) as Yj.
    exact (isoDate_order _ _ Yi Yj Hbefore).
Qed.

Lemma sixNoons_years : forall item, In item sixNoons -> fourDigitYear item.
Proof.
  intros item Hitem. vm_compute in Hitem.
  repeat (destruct Hitem as [<-|Hitem];
          [vm_compute; split; intros E; discriminate E|]).
  contradiction.
Defined.

Lemma buckets_are_days_in_order_witness :
  (forall item, In item sixNoons -> fourDigitYear item)
  /\ StronglySorted
       (fun a b => forall i j, In i (allItems a) -> In j (allItems b) ->
                               utcDay i < utcDay j)
       (dailyForecasts sampleEnv sixNoons).
Proof.
  split; [exact sixNoons_years|].
  exact (proj2 (buckets_are_days_in_order sampleEnv sixNoons sixNoons_years)).
Defined.

Example sixNoons_dates :
  map date (dailyForecasts sampleEnv sixNoons)
  = ["2024-01-15"; "2024-01-16"; "2024-01-17"; "2024-01-18"; "2024-01-19"].
Proof. vm_compute. reflexivity. Qed.

End ForecastChronology.

(* ===================================================================== *)
(** * Buckets as days of the calendar *)
(* ===================================================================== *)

Module ForecastDays.
Import JS JSFacts Forecast ForecastView ForecastSpec ForecastGrouping CalendarFacts.
Import ForecastLabels ForecastChronology.
Local Open Scope list_scope.

(** The number of UTC days that hold a point of the input: the days are
    those of the instants [dt * 1000], whatever the keys look like. *)
Definition distinctDays (items : list ForecastItem) : nat :=
  List.length (nodup Z.eq_dec (map utcDay items)).

(** The points of one UTC day, in the order of the input. *)
Definition pointsOnDay (day : Z) (items : list ForecastItem) : list ForecastItem :=
  filter (fun item => utcDay item =? day) items.

Lemma nodup_map_length {A B : Type} (decA : forall x y : A, {x = y} + {x <> y})
    (decB : forall x y : B, {x = y} + {x <> y}) (f : A -> B) (l : list A) :
  (forall x y, In x l -> In y l -> f x = f y -> x = y) ->
  List.length (nodup decB (map f l)) = List.length (nodup decA l).
Proof.
  induction l as [|a l IH]; intros Hinj; [reflexivity|].
  assert (IH' : List.length (nodup decB (map f l)) = List.length (nodup decA l)).
  { apply IH. intros x y Hx Hy. apply Hinj; now right. }
  cbn [map nodup].
  destruct (in_dec decB (f a) (map f l)) as [Hb|Hb], (in_dec decA a l) as [Ha|Ha].
  - exact IH'.
  - exfalso. apply in_map_iff in Hb. destruct Hb as (x & E & Hx).
    apply Ha. rewrite <- (Hinj x a); [exact Hx | now right | now left | exact E].
  - exfalso. apply Hb. now apply in_map.
  - cbn [List.length]. now rewrite IH'.
Qed.

Lemma dateKeyOf_utcDay item : dateKeyOf item = isoDate (utcDay item).
Proof. apply dateKeyOf_isoDate. Qed.

(** In the years 0000 to 9999 two points have the same key exactly when
    they are on the same UTC day. *)
Lemma same_key_same_day i j :
  fourDigitYear i -> fourDigitYear j ->
  dateKeyOf i = dateKeyOf j -> utcDay i = utcDay j.
Proof.
  intros Hi Hj E.
  pose proof (dateKeyOf_parse i Hi) as Pi. pose proof (dateKeyOf_parse j Hj) as Pj.
  rewrite E, Pj in Pi. injection Pi as Pi. unfold msPerDay in Pi. lia.
Qed.

Lemma distinctDates_days items :
  (forall item, In item items -> fourDigitYear item) ->
  distinctDates items = distinctDays items.
Proof.
  intros Hyears. unfold distinctDates, distinctDays.
  rewrite (map_ext _ (fun item => isoDate (utcDay item)) dateKeyOf_utcDay).
  rewrite <- (map_map utcDay isoDate).
  apply nodup_map_length. intros d1 d2 H1 H2 E.
  apply in_map_iff in H1, H2. destruct H1 as (i & <- & Hi), H2 as (j & <- & Hj).
  apply same_key_same_day; auto. now rewrite !dateKeyOf_utcDay.
Qed.

Lemma itemsOn_day items item :
  (forall item, In item items -> fourDigitYear item) ->
  In item items ->
  itemsOn (dateKeyOf item) items = pointsOnDay (utcDay item) items.
Proof.
  intros Hyears Hitem. unfold itemsOn, pointsOnDay. apply filter_ext_in. intros x Hx.
  destruct (String.eqb_spec (dateKeyOf x) (dateKeyOf item)) as [E|E];
    destruct (Z.eqb_spec (utcDay x) (utcDay item)) as [D|D]; try reflexivity; exfalso.
  - apply D. apply same_key_same_day; auto.
  - apply E. now rewrite !dateKeyOf_utcDay, D.
Qed.

(** A non-empty array of the points of one key is the array of the
    points of one day. *)
Lemma itemsOn_is_a_day items k :
  (forall item, In item items -> fourDigitYear item) ->
  itemsOn k items <> [] ->
  exists item, In item items /\ k = isoDate (utcDay item)
               /\ itemsOn k items = pointsOnDay (utcDay item) items.
Proof.
  intros Hyears Hne.
  destruct (itemsOn k items) as [|item rest] eqn:Harr; [contradiction|].
  assert (Hin : In item (itemsOn k items)) by (rewrite Harr; now left).
  unfold itemsOn in Hin. apply filter_In in Hin. destruct Hin as [Hitem Hkey].
  apply String.eqb_eq in Hkey. subst k.
  exists item. split; [exact Hitem|]. split; [apply dateKeyOf_utcDay|].
  rewrite <- Harr. now apply itemsOn_day.
Qed.

Lemma entry_is_a_day items k arr :
  (forall item, In item items -> fourDigitYear item) ->
  In (k, arr) (groupedByDate items) ->
  arr <> [] /\ exists item, In item items /\ k = isoDate (utcDay item)
                            /\ arr = pointsOnDay (utcDay item) items.
Proof.
  intros Hyears Hentry. destruct (grouped_entry _ _ _ Hentry) as [-> Hne].
  split; [exact Hne|]. now apply itemsOn_is_a_day.
Qed.

Lemma bucket_is_a_day e items b :
  (forall item, In item items -> fourDigitYear item) ->
  In b (dailyForecasts e items) ->
  exists item, In item items /\ date b = isoDate (utcDay item)
               /\ allItems b = pointsOnDay (utcDay item) items.
Proof.
  intros Hyears Hb. destruct (dailyForecasts_allItems _ _ _ Hb) as (Hall & Hne & _).
  rewrite Hall in *. now apply itemsOn_is_a_day.
Qed.

Lemma sampleItems_years : forall item, In item sampleItems -> fourDigitYear item.
Proof.
  intros item Hitem. vm_compute in Hitem.
  repeat (destruct Hitem as [<-|Hitem];
          [vm_compute; split; intros E; discriminate E|]).
  contradiction.
Defined.

(** C1.  For a sequence of points in the years 0000 to 9999 (the years
    whose date keys have the form YYYY-MM-DD) that spans N distinct UTC
    days, the days being those of the instants [dt * 1000], there are
    exactly min(N, 5) daily buckets, in strictly ascending order of
    their date keys, and the key of each bucket is the ISO date of the
    UTC day of a point of the input, whose points of that day the bucket
    holds. *)
Theorem C1_bucket_count_and_order (e : Env) (items : list ForecastItem) :
  (forall item, In item items -> fourDigitYear item) ->
  List.length (dailyForecasts e items) = Nat.min (distinctDays items) 5
  /\ ascendingDates (dailyForecasts e items)
  /\ (forall b, In b (dailyForecasts e items) ->
        exists item, In item items /\ date b = isoDate (utcDay item)
                     /\ allItems b = pointsOnDay (utcDay item) items).
Proof.
  intros Hyears. rewrite <- (distinctDates_days items Hyears).
  split; [apply dailyForecasts_keys_counted|].
  split; [apply dailyForecasts_ascending|].
  intros b Hb. now apply (bucket_is_a_day e).
Qed.

Lemma C1_bucket_count_and_order_witness :
  (forall item, In item sixNoons -> fourDigitYear item)
  /\ distinctDays sixNoons = 6%nat
  /\ List.length (dailyForecasts sampleEnv sixNoons) = Nat.min (distinctDays sixNoons) 5
  /\ ascendingDates (dailyForecasts sampleEnv sixNoons).
Proof.
  split; [exact sixNoons_years|].
  split; [reflexivity|].
  split.
  - exact (proj1 (C1_bucket_count_and_order sampleEnv sixNoons sixNoons_years)).
  - exact (proj1 (proj2 (C1_bucket_count_and_order sampleEnv sixNoons sixNoons_years))).
Defined.

(** X1.  For points in the years 0000 to 9999, grouping by date is a
    partition of the input by UTC day: no point is lost or duplicated,
    there is one entry per day that holds a point, under the ISO date of
    that day, and each entry holds exactly the points of its day, in the
    order of the input, and at least one. *)
Theorem grouping_is_a_partition (items : list ForecastItem) :
  (forall item, In item items -> fourDigitYear item) ->
  Permutation (pointsOf (groupedByDate items)) items
  /\ NoDup (keys (groupedByDate items))
  /\ List.length (groupedByDate items) = distinctDays items
  /\ (forall k arr, In (k, arr) (groupedByDate items) ->
        arr <> [] /\ exists item, In item items /\ k = isoDate (utcDay item)
                                  /\ arr = pointsOnDay (utcDay item) items)
  /\ (forall item, In item items ->
        In (isoDate (utcDay item), pointsOnDay (utcDay item) items)
           (groupedByDate items)).
Proof.
  intros Hyears. destruct (grouped_by_key items) as (Hperm & Hnodup & _ & Hall).
  split; [exact Hperm|]. split; [exact Hnodup|].
  split; [rewrite grouped_length; now apply distinctDates_days|].
  split; [intros k arr; now apply entry_is_a_day|].
  intros item Hitem.
  rewrite <- dateKeyOf_utcDay, <- (itemsOn_day items item Hyears Hitem).
  now apply Hall.
Qed.

Lemma grouping_is_a_partition_witness :
  (forall item, In item sampleItems -> fourDigitYear item)
  /\ List.length (groupedByDate sampleItems) = distinctDays sampleItems
  /\ In (isoDate (utcDay (point 1705316400 4)),
         pointsOnDay (utcDay (point 1705316400 4)) sampleItems)
        (groupedByDate sampleItems).
Proof.
  split; [exact sampleItems_years|].
  split.
  - exact (proj1 (proj2 (proj2 (grouping_is_a_partition sampleItems sampleItems_years)))).
  - apply (proj2 (proj2 (proj2 (proj2
             (grouping_is_a_partition sampleItems sampleItems_years))))).
    left; reflexivity.
Defined.

(** X2.  When the points, in the years 0000 to 9999, are on at most five
    UTC days, the daily buckets together hold every point of the input
    exactly once. *)
Theorem dailyForecasts_keep_every_point (e : Env) (items : list ForecastItem) :
  (forall item, In item items -> fourDigitYear item) ->
  (distinctDays items <= 5)%nat ->
  Permutation (List.concat (map allItems (dailyForecasts e items))) items.
Proof.
  intros Hyears Hfew. apply few_keys_keep_every_point.
  now rewrite distinctDates_days.
Qed.

Lemma dailyForecasts_keep_every_point_witness :
  (forall item, In item sampleItems -> fourDigitYear item)
  /\ (distinctDays sampleItems <= 5)%nat
  /\ Permutation (List.concat (map allItems (dailyForecasts sampleEnv sampleItems)))
       sampleItems.
Proof.
  assert (H : (distinctDays sampleItems <= 5)%nat) by (vm_compute; lia).
  split; [exact sampleItems_years|].
  split; [exact H|].
  exact (dailyForecasts_keep_every_point sampleEnv sampleItems sampleItems_years H).
Defined.

(** X3.  The cap keeps the earliest days: for points in the years 0000
    to 9999, a point of the input that no bucket holds is on a later
    UTC day than every point of every bucket, its key comes after the
    key of every bucket, and then there are five buckets. *)
Theorem dailyForecasts_drop_the_latest (e : Env) (items : list ForecastItem)
    (item : ForecastItem) :
  (forall item, In item items -> fourDigitYear item) ->
  In item items ->
  (forall b, In b (dailyForecasts e items) -> ~ In item (allItems b)) ->
  List.length (dailyForecasts e items) = 5%nat
  /\ (forall b, In b (dailyForecasts e items) -> before (date b) (dateKeyOf item))
  /\ (forall b i, In b (dailyForecasts e items) -> In i (allItems b) ->
        utcDay i < utcDay item).
Proof.
  intros Hyears Hitem Hnone.
  assert (Hkeys : forall b, In b (dailyForecasts e items) -> date b <> dateKeyOf item).
  { intros b Hb E. apply (Hnone b Hb).
    destruct (dailyForecasts_allItems _ _ _ Hb) as (-> & _).
    unfold itemsOn. apply filter_In. split; [exact Hitem|].
    rewrite E. apply String.eqb_refl. }
  destruct (dropped_key_is_after e items item Hitem Hkeys) as [Hfive Hafter].
  split; [exact Hfive|]. split; [exact Hafter|].
  intros b i Hb Hi. pose proof (Hafter b Hb) as Hbefore.
  destruct (bucket_of_point _ _ _ _ Hb Hi) as [Hdi _].
  rewrite Hdi, !dateKeyOf_isoDate in Hbefore.
  pose proof (fourDigitYear_day i (Hyears _ (bucket_points_in_input _ _ _ _ Hb Hi))) as Yi.
  pose proof (fourDigitYear_day item (Hyears _ Hitem)) as Yj.
  exact (isoDate_order _ _ Yi Yj Hbefore).
Qed.

Lemma dailyForecasts_drop_the_latest_witness :
  (forall item, In item sixNoons -> fourDigitYear item)
  /\ In (point 1705752000 5) sixNoons
  /\ List.length (dailyForecasts sampleEnv sixNoons) = 5%nat
  /\ forall b i, In b (dailyForecasts sampleEnv sixNoons) -> In i (allItems b) ->
       utcDay i < utcDay (point 1705752000 5).
Proof.
  assert (Hitem : In (point 1705752000 5) sixNoons) by (left; reflexivity).
  assert (Hnone : forall b, In b (dailyForecasts sampleEnv sixNoons) ->
                            ~ In (point 1705752000 5) (allItems b)).
  { intros b Hb. vm_compute in Hb.
    repeat (destruct Hb as [<-|Hb];
            [vm_compute; intros [E|[]]; discriminate E|]).
    contradiction. }
  split; [exact sixNoons_years|].
  split; [exact Hitem|].
  split.
  - exact (proj1 (dailyForecasts_drop_the_latest sampleEnv sixNoons _
                    sixNoons_years Hitem Hnone)).
  - exact (proj2 (proj2 (dailyForecasts_drop_the_latest sampleEnv sixNoons _
                           sixNoons_years Hitem Hnone))).
Defined.

End ForecastDays.
